(** * Batch engine of promptflow: a shallow embedding and its properties

    The development follows [promptflow/batch/_batch_engine.py] (class
    [BatchEngine]) and the test helper [promptflow-tools/tests/utils.py]
    (class [AttrDict]).

    The batch engine is an asyncio program: one supervisor coroutine
    ([_exec_in_task]), one worker coroutine ([_exec]) and one task per input
    line.  asyncio is cooperative and single threaded, so the program is
    modelled as a transition system whose steps are the resumptions of a
    coroutine at one of its [await]s; what the outside world decides (when a
    line finishes and with what result, when [cancel()] is called, when the
    one second sleep elapses, what the wall clock shows) comes in as events. *)

From Stdlib Require Import String Arith ZArith Lia DecimalString.
From Stdlib Require Import List Permutation Sorted.
Import ListNotations.
Open Scope string_scope.
Open Scope list_scope.

(** String concatenation, kept apart from the [++] of lists. *)
Infix "+++" := String.append (at level 60, right associativity).

(** ** Python values, dictionaries, exceptions *)

(** The values flowing through the engine are [Any] in the source; the
    engine never inspects them, so scalars are enough. *)
Inductive PyVal : Type :=
| VNone
| VBool (b : bool)
| VInt (z : Z)
| VStr (s : string).

(** A Python [dict] with string keys: insertion ordered, keys unique. *)
Definition Dict : Type := list (string * PyVal).

Fixpoint dict_get (k : string) (d : Dict) : option PyVal :=
  match d with
  | [] => None
  | (k', v) :: d' => if String.eqb k k' then Some v else dict_get k d'
  end.

Definition dict_contains (k : string) (d : Dict) : bool :=
  match dict_get k d with Some _ => true | None => false end.

(** [d[k] = v]: an existing key keeps its position, a new key goes last. *)
Fixpoint dict_set (k : string) (v : PyVal) (d : Dict) : Dict :=
  match d with
  | [] => [(k, v)]
  | (k', v') :: d' =>
      if String.eqb k k' then (k', v) :: d' else (k', v') :: dict_set k v d'
  end.

(** [{**d1, **d2}]: the items of [d2] are stored into [d1] one by one. *)
Definition dict_update (d1 d2 : Dict) : Dict :=
  fold_left (fun acc kv => dict_set (fst kv) (snd kv) acc) d2 d1.

(** An exception object, an instance of [Exception].  The first field is
    [isinstance(e, PromptflowException)]; [ExcFrom] is an exception raised
    with [raise ... from cause]. *)
Inductive PyExc : Type :=
| Exc (is_promptflow : bool) (class_name : string) (message : string)
| ExcFrom (is_promptflow : bool) (class_name : string) (message : string)
          (cause : PyExc).

Definition exc_is_promptflow (e : PyExc) : bool :=
  match e with Exc b _ _ | ExcFrom b _ _ _ => b end.
Definition exc_class_name (e : PyExc) : string :=
  match e with Exc _ n _ | ExcFrom _ n _ _ => n end.
Definition exc_message (e : PyExc) : string :=
  match e with Exc _ _ m | ExcFrom _ _ m _ => m end.
Definition exc_cause (e : PyExc) : option PyExc :=
  match e with Exc _ _ _ => None | ExcFrom _ _ _ c => Some c end.

(** What a call does: it returns a value or raises an [Exception]. *)
Inductive Outcome (A : Type) : Type :=
| Ret (a : A)
| Raise (e : PyExc).
Arguments Ret {A} a.
Arguments Raise {A} e.

Definition bind {A B : Type} (o : Outcome A) (k : A -> Outcome B) : Outcome B :=
  match o with
  | Ret a => k a
  | Raise e => Raise e
  end.

Notation "x <- c1 ;; c2" := (bind c1 (fun x => c2))
  (at level 61, c1 at next level, right associativity).

(** [[f(x) for x in xs]] where [f] may raise: the first exception wins. *)
Fixpoint map_outcome {A B : Type} (f : A -> Outcome B) (xs : list A)
  : Outcome (list B) :=
  match xs with
  | [] => Ret []
  | x :: xs' => y <- f x ;; ys <- map_outcome f xs' ;; Ret (y :: ys)
  end.

(** [l[i]]: [IndexError] out of range. *)
Definition list_index {A : Type} (l : list A) (i : nat) : Outcome A :=
  match nth_error l i with
  | Some a => Ret a
  | None => Raise (Exc false "IndexError" "list index out of range")
  end.

(** [enumerate(l)] *)
Definition enumerate {A : Type} (l : list A) : list (nat * A) :=
  combine (seq 0 (length l)) l.

(** [str(n)] for a non-negative integer. *)
Definition str_of_nat (n : nat) : string :=
  NilEmpty.string_of_uint (Nat.to_uint n).

(** ** Contracts used by the engine *)

(** Modelled from the spec: the [Status] enumeration of
    [promptflow.contracts.run_info] is not part of the sources at hand; the
    specification gives a line the three statuses below. *)
Inductive Status : Type := Completed | Failed | Canceled.

Definition Status_eqb (a b : Status) : bool :=
  match a, b with
  | Completed, Completed | Failed, Failed | Canceled, Canceled => true
  | _, _ => false
  end.

(** Modelled from the spec: the run info of a line; the engine reads
    [index] and [status], the failure summary reads the recorded cause. *)
Record RunInfo : Type := mkRunInfo {
  index : nat;
  status : Status;
  error : string
}.

(** Modelled from the spec: [promptflow.executor._result.LineResult], with
    the three attributes the engine reads. *)
Record LineResult : Type := mkLineResult {
  output : Dict;
  aggregation_inputs : Dict;
  run_info : RunInfo
}.

(** Column shaped data: one list of cells per key; a cell is [None] where
    the line has no value under the key. *)
Definition Columns : Type := list (string * list (option PyVal)).

(** Modelled from the spec: [AggregationResult(output, metrics,
    node_run_infos)]. *)
Record AggregationResult : Type := mkAggregationResult {
  aggr_output : Dict;
  aggr_metrics : Dict;
  aggr_node_run_infos : Dict
}.

Definition empty_AggregationResult : AggregationResult :=
  mkAggregationResult [] [] [].

Record Node : Type := mkNode {
  name : string;
  aggregation : bool
}.

(** The flow: its declared inputs (only the names matter here) and its
    nodes. *)
Record Flow : Type := mkFlow {
  inputs : list string;
  nodes : list Node
}.

(** Modelled from the spec: the run summary built by [BatchResult.create];
    the class lives in [promptflow.batch._result], which is not part of the
    sources at hand.  The specification lists start time, end time, overall
    status, the sequence of line results and the aggregation result. *)
Record BatchResult : Type := mkBatchResult {
  start_time : nat;
  end_time : nat;
  br_status : Status;
  line_results : list LineResult;
  aggr_results : AggregationResult
}.

(** [BatchResult.create(start, end, line_results, aggr_result, status=...)];
    without [status] the run counts as completed. *)
Definition BatchResult_create (start_ end_ : nat) (lrs : list LineResult)
           (aggr : AggregationResult) (st : option Status) : BatchResult :=
  mkBatchResult start_ end_
    (match st with Some s => s | None => Completed end) lrs aggr.

(** ** Helpers of [promptflow._utils] *)

(** Modelled from the spec: [transpose(values, keys)] of
    [promptflow._utils.utils] is not part of the sources at hand.  The
    specification has it map each key to the sequence of the values found
    under that key across the rows, in row order. *)
Definition transpose (values : list Dict) (keys : list string) : Columns :=
  map (fun k => (k, map (dict_get k) values)) keys.

(** Modelled from the spec: [collect_lines(indexes, kvs)] of
    [promptflow._utils.execution_utils] is not part of the sources at hand.
    The specification has it restrict every column to the given positions,
    in the order of [indexes]. *)
Definition collect_lines (indexes : list nat) (kvs : Columns) : Outcome Columns :=
  map_outcome
    (fun kv => col <- map_outcome (list_index (snd kv)) indexes ;;
               Ret (fst kv, col))
    kvs.

(** The text the failure summary gives for one failed line. *)
Definition line_failure_text (r : RunInfo) : string :=
  "[line " +++ str_of_nat (index r) +++ ": " +++ error r +++ "]".

(** Modelled from the spec: [handle_line_failures(run_infos,
    raise_on_line_failure)] of [promptflow._utils.execution_utils] is not
    part of the sources at hand.  By the specification, with the flag set a
    line with status [Failed] makes the run fail with one exception that
    summarises the failing line indices and causes; without the flag the
    failures are only reported. *)
Definition handle_line_failures (run_infos : list RunInfo)
           (raise_on_line_failure : bool) : Outcome unit :=
  let failed := filter (fun r => Status_eqb (status r) Failed) run_infos in
  match failed with
  | [] => Ret tt
  | _ :: _ =>
      if raise_on_line_failure
      then Raise (Exc false "Exception"
                      ("Flow run failed on lines: "
                         +++ String.concat ", " (map line_failure_text failed)))
      else Ret tt
  end.

(** [sorted(line_results, key=lambda r: r.run_info.index)]: Python's sort
    is stable.  The elements are inserted from the last to the first, each
    one in front of the elements with an equal or a greater key, so that
    elements with equal keys keep the order they had. *)
Fixpoint insert_by_index (r : LineResult) (l : list LineResult)
  : list LineResult :=
  match l with
  | [] => [r]
  | x :: l' =>
      if Nat.leb (index (run_info r)) (index (run_info x))
      then r :: x :: l'
      else x :: insert_by_index r l'
  end.

Definition sorted_by_index (l : list LineResult) : list LineResult :=
  fold_right insert_by_index [] l.

(** ** The engine and its surroundings *)

Definition Path : Type := list string.

Definition OUTPUT_FILE_NAME : string := "output.jsonl".
Definition DEFAULT_CONCURRENCY : nat := 16.

(** The executor proxy: [PythonExecutorProxy] runs a whole batch by itself
    (its [_exec_batch] is given as a function of the inputs, the output
    directory and the run id); any other proxy only offers
    [exec_line_async], whose results arrive as events. *)
Inductive ExecutorProxy : Type :=
| PythonExecutorProxy
    (proxy_exec_batch : list Dict -> Path -> string -> Outcome (list LineResult))
| OtherExecutorProxy.

(** Constants and functions the engine imports from modules that are not
    part of the sources at hand; they are parameters of the model. *)
Record Collaborators : Type := mkCollaborators {
  LINE_NUMBER_KEY : string;
  uuid4 : string;
  apply_default_value_for_input : list string -> Dict -> Dict;
  ensure_flow_inputs_type : Flow -> Dict -> Outcome Dict;
  get_aggregation_inputs_properties : Flow -> list string;
  resolve_dir_to_absolute : Path -> Path -> Path
}.

(** What [__init__] fixes for the life of the engine. *)
Record Engine : Type := mkEngine {
  collab : Collaborators;
  _working_dir : Path;
  _flow : Flow;
  _executor_proxy : ExecutorProxy
}.

(** The parameters of [_exec] after its first two statements: the inputs
    with their defaults applied and the run id resolved. *)
Record ExecArgs : Type := mkExecArgs {
  batch_inputs : list Dict;
  run_id : string;
  output_dir : Path;
  raise_on_line_failure : bool
}.

(** A task made by [asyncio.create_task(exec_line_async(...))]: it runs from
    the moment the event loop gets control, and finishes with what the
    executor returns or raises. *)
Inductive LineTask : Type :=
| Running
| Finished (o : Outcome LineResult).

Definition is_running (t : nat * LineTask) : bool :=
  match snd t with Running => true | Finished _ => false end.

Definition is_done (t : nat * LineTask) : bool := negb (is_running t).

(** Where the coroutine [_exec] is suspended. *)
Inductive ExecPc : Type :=
| NoTask
| AwaitSemaphore (completed_line : nat)
| AwaitWait (completed_line : nat) (semaphore : nat)
| AwaitAggregation
| Done (result : Outcome (option BatchResult)).

(** The mutable state: the attributes of [self] that change, the event loop
    (tasks, the suspended worker, a cancellation on its way, the supervisor's
    result once it has one) and the effects on the outside (calls of the
    executor, the files the engine itself writes, the wall clock). *)
Record World : Type := mkWorld {
  _is_canceled : bool;
  _line_results : list LineResult;
  _aggr_results : AggregationResult;
  _start_time : nat;
  clock : nat;
  pending : list (nat * LineTask);
  exec_pc : ExecPc;
  must_cancel : bool;
  supervisor : option (Outcome (option BatchResult));
  aggregation_calls : list (Columns * Columns * string);
  files : list (Path * list Dict);
  executor_log : list (nat * Outcome LineResult);
  destroy_calls : nat
}.

Definition with_is_canceled (w : World) (b : bool) : World :=
  mkWorld b (_line_results w) (_aggr_results w) (_start_time w) (clock w)
    (pending w) (exec_pc w) (must_cancel w) (supervisor w)
    (aggregation_calls w) (files w) (executor_log w) (destroy_calls w).

Definition with_line_results (w : World) (l : list LineResult) : World :=
  mkWorld (_is_canceled w) l (_aggr_results w) (_start_time w) (clock w)
    (pending w) (exec_pc w) (must_cancel w) (supervisor w)
    (aggregation_calls w) (files w) (executor_log w) (destroy_calls w).

Definition with_aggr_results (w : World) (a : AggregationResult) : World :=
  mkWorld (_is_canceled w) (_line_results w) a (_start_time w) (clock w)
    (pending w) (exec_pc w) (must_cancel w) (supervisor w)
    (aggregation_calls w) (files w) (executor_log w) (destroy_calls w).

Definition with_start_time (w : World) (t : nat) : World :=
  mkWorld (_is_canceled w) (_line_results w) (_aggr_results w) t (clock w)
    (pending w) (exec_pc w) (must_cancel w) (supervisor w)
    (aggregation_calls w) (files w) (executor_log w) (destroy_calls w).

Definition with_clock (w : World) (t : nat) : World :=
  mkWorld (_is_canceled w) (_line_results w) (_aggr_results w) (_start_time w) t
    (pending w) (exec_pc w) (must_cancel w) (supervisor w)
    (aggregation_calls w) (files w) (executor_log w) (destroy_calls w).

Definition with_pending (w : World) (p : list (nat * LineTask)) : World :=
  mkWorld (_is_canceled w) (_line_results w) (_aggr_results w) (_start_time w)
    (clock w) p (exec_pc w) (must_cancel w) (supervisor w)
    (aggregation_calls w) (files w) (executor_log w) (destroy_calls w).

Definition with_exec_pc (w : World) (pc : ExecPc) : World :=
  mkWorld (_is_canceled w) (_line_results w) (_aggr_results w) (_start_time w)
    (clock w) (pending w) pc (must_cancel w) (supervisor w)
    (aggregation_calls w) (files w) (executor_log w) (destroy_calls w).

Definition with_must_cancel (w : World) (b : bool) : World :=
  mkWorld (_is_canceled w) (_line_results w) (_aggr_results w) (_start_time w)
    (clock w) (pending w) (exec_pc w) b (supervisor w)
    (aggregation_calls w) (files w) (executor_log w) (destroy_calls w).

Definition with_supervisor (w : World)
           (s : option (Outcome (option BatchResult))) : World :=
  mkWorld (_is_canceled w) (_line_results w) (_aggr_results w) (_start_time w)
    (clock w) (pending w) (exec_pc w) (must_cancel w) s
    (aggregation_calls w) (files w) (executor_log w) (destroy_calls w).

Definition with_aggregation_calls (w : World)
           (c : list (Columns * Columns * string)) : World :=
  mkWorld (_is_canceled w) (_line_results w) (_aggr_results w) (_start_time w)
    (clock w) (pending w) (exec_pc w) (must_cancel w) (supervisor w)
    c (files w) (executor_log w) (destroy_calls w).

Definition with_files (w : World) (f : list (Path * list Dict)) : World :=
  mkWorld (_is_canceled w) (_line_results w) (_aggr_results w) (_start_time w)
    (clock w) (pending w) (exec_pc w) (must_cancel w) (supervisor w)
    (aggregation_calls w) f (executor_log w) (destroy_calls w).

Definition with_executor_log (w : World)
           (l : list (nat * Outcome LineResult)) : World :=
  mkWorld (_is_canceled w) (_line_results w) (_aggr_results w) (_start_time w)
    (clock w) (pending w) (exec_pc w) (must_cancel w) (supervisor w)
    (aggregation_calls w) (files w) l (destroy_calls w).

Definition with_destroy_calls (w : World) (n : nat) : World :=
  mkWorld (_is_canceled w) (_line_results w) (_aggr_results w) (_start_time w)
    (clock w) (pending w) (exec_pc w) (must_cancel w) (supervisor w)
    (aggregation_calls w) (files w) (executor_log w) n.

(** [__init__]: not canceled, no line results, an empty aggregation
    result; nothing has happened outside yet.  An engine serves one run:
    [run] ends by destroying the executor proxy. *)
Definition BatchEngine_init (now : nat) : World :=
  mkWorld false [] empty_AggregationResult 0 now [] NoTask false None [] [] [] 0.

(** [cancel()] *)
Definition cancel (w : World) : World := with_is_canceled w true.

(** [datetime.utcnow()] *)
Definition utcnow (w : World) : nat := clock w.

(** The number of [exec_line_async] calls that have begun and not ended. *)
Definition in_flight (w : World) : nat :=
  List.length (filter is_running (pending w)).

(** ** The coroutines of [BatchEngine] *)

(** [f"({e.__class__.__name__}) {e}"] *)
Definition error_type_and_message (e : PyExc) : string :=
  "(" +++ exc_class_name e +++ ") " +++ exc_message e.

(** [UnexpectedError(message_format=..., error_type_and_message=...)] raised
    [from e].  The class comes from [promptflow._core._errors]; it is one of
    the classified errors, that is a [PromptflowException]. *)
Definition UnexpectedError (before after : string) (e : PyExc) : PyExc :=
  ExcFrom true "UnexpectedError"
          (before +++ error_type_and_message e +++ after) e.

Definition aggregation_unexpected_error (e : PyExc) : PyExc :=
  UnexpectedError
    ("Unexpected error occurred while executing the aggregated nodes. "
       +++ "Please fix or contact support for assistance. The error details: ")
    "." e.

Definition run_unexpected_error (e : PyExc) : PyExc :=
  UnexpectedError
    "Unexpected error occurred while executing the batch run. Error: " "." e.

(** Modelled from the spec: [dump_list_to_jsonl(path, records)] of
    [promptflow._utils.utils] is not part of the sources at hand; by the
    specification the file gets one JSON object per record, one per line.
    The file is kept as the list of its records. *)
Definition dump_list_to_jsonl (path : Path) (records : list Dict) (w : World)
  : World :=
  with_files w ((path, records) :: files w).

Definition Path_eqb (p q : Path) : bool :=
  if list_eq_dec string_dec p q then true else false.

(** The records of the file at [path], if it has been written. *)
Fixpoint read_file (path : Path) (fs : list (Path * list Dict))
  : option (list Dict) :=
  match fs with
  | [] => None
  | (p, c) :: fs' => if Path_eqb path p then Some c else read_file path fs'
  end.

(** [_persist_outputs] *)
Definition _persist_outputs (w : World) (outputs : list Dict) (dir : Path)
  : World :=
  let output_file := dir ++ [OUTPUT_FILE_NAME] in
  dump_list_to_jsonl output_file outputs w.

Definition is_completed (r : LineResult) : bool :=
  Status_eqb (status (run_info r)) Completed.

(** [{LINE_NUMBER_KEY: r.run_info.index, **r.output}] *)
Definition output_record (E : Engine) (r : LineResult) : Dict :=
  dict_update
    [(LINE_NUMBER_KEY (collab E), VInt (Z.of_nat (index (run_info r))))]
    (output r).

(** The worker finishes: its task is done with this result. *)
Definition finish (w : World) (o : Outcome (option BatchResult)) : World :=
  with_exec_pc w (Done o).

(** [_exec], from the assignment of [self._aggr_results] to the end. *)
Definition _exec_after_aggregation (E : Engine) (a : ExecArgs) (w : World)
           (aggr : AggregationResult) : World :=
  let w := with_aggr_results w aggr in
  let outputs := map (output_record E) (filter is_completed (_line_results w)) in
  let w := _persist_outputs w outputs (output_dir a) in
  finish w (Ret (Some (BatchResult_create (_start_time w) (utcnow w)
                         (_line_results w) (_aggr_results w) None))).

(** [{node.name for node in self._flow.nodes if node.aggregation}] *)
Definition aggregation_nodes (f : Flow) : list string :=
  map name (filter aggregation (nodes f)).

(** [[i for i, r in enumerate(run_infos) if r.status == Status.Completed]] *)
Definition succeeded_of (run_infos : list RunInfo) : list nat :=
  map fst (filter (fun ir => Status_eqb (status (snd ir)) Completed)
                  (enumerate run_infos)).

(** How [_exec_aggregation] goes on after its first lines: it returns at
    once, or it calls [exec_aggregation_async] with two sets of columns. *)
Inductive AggregationStart : Type :=
| ReturnsAtOnce (r : AggregationResult)
| CallsExecutor (succeeded_inputs succeeded_aggregation_inputs : Columns).

(** [_exec_aggregation] up to the call of the executor. *)
Definition _exec_aggregation_begin (E : Engine) (inputs_ : list Dict)
           (lrs : list LineResult) : Outcome AggregationStart :=
  match aggregation_nodes (_flow E) with
  | [] => Ret (ReturnsAtOnce (mkAggregationResult [] [] []))
  | _ :: _ =>
      let run_infos := map run_info lrs in
      let succeeded := succeeded_of run_infos in
      succeeded_batch_inputs <- map_outcome (list_index inputs_) succeeded ;;
      resolved_succeeded_batch_inputs <-
        map_outcome (ensure_flow_inputs_type (collab E) (_flow E))
                    succeeded_batch_inputs ;;
      let succeeded_inputs :=
        transpose resolved_succeeded_batch_inputs (inputs (_flow E)) in
      let aggregation_inputs_ :=
        transpose (map aggregation_inputs lrs)
                  (get_aggregation_inputs_properties (collab E) (_flow E)) in
      succeeded_aggregation_inputs <- collect_lines succeeded aggregation_inputs_ ;;
      Ret (CallsExecutor succeeded_inputs succeeded_aggregation_inputs)
  end.

(** The [try ... except] around the call of the executor in
    [_exec_aggregation]. *)
Definition _exec_aggregation_handle (o : Outcome AggregationResult)
  : Outcome AggregationResult :=
  match o with
  | Ret aggr_results_ => Ret aggr_results_
  | Raise e =>
      if exc_is_promptflow e then Raise e
      else Raise (aggregation_unexpected_error e)
  end.

(** [_exec], from the assignment of [self._line_results] to the call of the
    executor's aggregation (where it waits) or, without aggregation, to the
    end. *)
Definition _exec_after_batch (E : Engine) (a : ExecArgs) (w : World)
           (lrs : list LineResult) : World :=
  let w := with_line_results w lrs in
  match handle_line_failures (map run_info (_line_results w))
                             (raise_on_line_failure a) with
  | Raise e => finish w (Raise e)
  | Ret _ =>
      match _exec_aggregation_begin E (batch_inputs a) (_line_results w) with
      | Raise e => finish w (Raise e)
      | Ret (ReturnsAtOnce r) => _exec_after_aggregation E a w r
      | Ret (CallsExecutor succeeded_inputs succeeded_aggregation_inputs) =>
          let w := with_aggregation_calls w
                     (aggregation_calls w ++
                        [(succeeded_inputs, succeeded_aggregation_inputs, run_id a)]) in
          with_exec_pc w AwaitAggregation
      end
  end.

(** [asyncio.Semaphore(value).acquire()]: it goes through when the value is
    positive and takes one unit; at zero it waits for a release. *)
Definition Semaphore_acquire (value : nat) : option nat :=
  match value with
  | 0 => None
  | S v => Some v
  end.

(** The head of the [while] loop of [_exec_batch].  Each round makes a
    semaphore of its own; nobody but this coroutine ever acquires it.
    [asyncio.wait] refuses an empty set of tasks with a [ValueError]. *)
Definition _exec_batch_loop (E : Engine) (a : ExecArgs) (w : World)
           (completed_line : nat) : World :=
  let total_lines := List.length (batch_inputs a) in
  if Nat.ltb completed_line total_lines then
    match Semaphore_acquire DEFAULT_CONCURRENCY with
    | None => with_exec_pc w (AwaitSemaphore completed_line)
    | Some v =>
        match pending w with
        | [] => finish w (Raise (Exc false "ValueError"
                                     "Set of Tasks/Futures is empty."))
        | _ :: _ => with_exec_pc w (AwaitWait completed_line v)
        end
    end
  else _exec_after_batch E a w (sorted_by_index (_line_results w)).

(** [_exec_batch] up to its first [await]: one task per line, all of them
    created (and so set running) before the loop and its semaphore. *)
Definition _exec_batch (E : Engine) (a : ExecArgs) (w : World) : World :=
  let completed_line := 0 in
  let w := with_pending w
             (map (fun il => (fst il, Running)) (enumerate (batch_inputs a))) in
  _exec_batch_loop E a w completed_line.

(** [_exec] up to its first [await]. *)
Definition _exec (E : Engine) (a : ExecArgs) (w : World) : World :=
  match _executor_proxy E with
  | PythonExecutorProxy proxy_exec_batch =>
      match proxy_exec_batch (batch_inputs a) (output_dir a) (run_id a) with
      | Raise e => finish w (Raise e)
      | Ret lrs => _exec_after_batch E a (with_pending w []) lrs
      end
  | OtherExecutorProxy => _exec_batch E a w
  end.

(** ** The event loop *)

(** What happens between two resumptions of the engine's coroutines. *)
Inductive Event : Type :=
| EvLineDone (i : nat) (o : Outcome LineResult)
    (* exec_line_async of line i returns or raises *)
| EvWaitWake
    (* asyncio.wait returns: at least one pending task is done *)
| EvAggregationDone (o : Outcome AggregationResult)
    (* exec_aggregation_async returns or raises *)
| EvCancel
    (* somebody calls cancel() *)
| EvSleepDone
    (* the asyncio.sleep(1) of the supervisor is over *)
| EvCancelDelivered
    (* the CancelledError asked for by task.cancel() is thrown into _exec *)
| EvClock (dt : nat).
    (* the wall clock moves on *)

(** Task [i] ends with [o], if it is there and running. *)
Fixpoint complete_task (i : nat) (o : Outcome LineResult)
         (p : list (nat * LineTask)) : option (list (nat * LineTask)) :=
  match p with
  | [] => None
  | (j, t) :: p' =>
      if Nat.eqb i j then
        match t with
        | Running => Some ((j, Finished o) :: p')
        | Finished _ => None
        end
      else option_map (cons (j, t)) (complete_task i o p')
  end.

(** [task.result()] of a task in [done]. *)
Definition task_result (t : nat * LineTask) : Outcome LineResult :=
  match snd t with
  | Finished o => o
  | Running => Raise (Exc false "InvalidStateError" "Result is not set.")
  end.

(** The supervisor's [task.cancel()]: a finished task is left alone. *)
Definition task_cancel (w : World) : World :=
  match exec_pc w with
  | NoTask | Done _ => w
  | _ => with_must_cancel w true
  end.

(** One step of the event loop.  An event that cannot happen in the state
    at hand leaves it as it is. *)
Definition step (E : Engine) (a : ExecArgs) (w : World) (ev : Event) : World :=
  match ev with
  | EvLineDone i o =>
      match complete_task i o (pending w) with
      | Some p => with_executor_log (with_pending w p) (executor_log w ++ [(i, o)])
      | None => w
      end
  | EvWaitWake =>
      match exec_pc w with
      | AwaitWait _ _ =>
          if must_cancel w then w else
          match filter is_done (pending w) with
          | [] => w
          | done =>
              (* done, pending = await asyncio.wait(pending, ...) *)
              let w := with_pending w (filter is_running (pending w)) in
              (* self._line_results.extend([task.result() for task in done]) *)
              match map_outcome task_result done with
              | Raise e => finish w (Raise e)
              | Ret results =>
                  let w := with_line_results w (_line_results w ++ results) in
                  (* completed_line = len(self._line_results) *)
                  _exec_batch_loop E a w (List.length (_line_results w))
              end
          end
      | _ => w
      end
  | EvAggregationDone o =>
      match exec_pc w with
      | AwaitAggregation =>
          if must_cancel w then w else
          match _exec_aggregation_handle o with
          | Ret aggr => _exec_after_aggregation E a w aggr
          | Raise e => finish w (Raise e)
          end
      | _ => w
      end
  | EvCancel => cancel w
  | EvSleepDone =>
      match supervisor w with
      | Some _ => w
      | None =>
          if _is_canceled w then
            let w := task_cancel w in
            with_supervisor w
              (Some (Ret (Some (BatchResult_create (_start_time w) (utcnow w)
                                  (_line_results w) (_aggr_results w)
                                  (Some Canceled)))))
          else
            match exec_pc w with
            | Done o => with_supervisor w (Some o)   (* return task.result() *)
            | _ => w                                 (* while not task.done() *)
            end
      end
  | EvCancelDelivered =>
      if must_cancel w then
        match exec_pc w with
        | AwaitSemaphore _ | AwaitWait _ _ =>
            (* except asyncio.CancelledError: break *)
            _exec_after_batch E a (with_must_cancel w false)
                              (sorted_by_index (_line_results w))
        | AwaitAggregation =>
            (* CancelledError is no Exception: it reaches the handler of
               _exec, which logs it and returns None *)
            finish (with_must_cancel w false) (Ret None)
        | _ => w
        end
      else w
  | EvClock dt => with_clock w (clock w + dt)
  end.

(** [asyncio.create_task(self._exec(...))]: a new worker, and a supervisor
    that has not returned yet. *)
Definition create_task (w : World) : World :=
  with_supervisor (with_must_cancel (with_exec_pc w NoTask) false) None.

(** [_exec_in_task]: the supervisor makes the worker's task and sleeps; the
    worker runs to its first [await]; then the events come. *)
Definition _exec_in_task (E : Engine) (a : ExecArgs) (w : World)
           (evs : list Event) : World :=
  fold_left (step E a) evs (_exec E a (create_task w)).

(** [run_id or str(uuid.uuid4())] *)
Definition resolve_run_id (E : Engine) (rid : option string) : string :=
  match rid with
  | None | Some EmptyString => uuid4 (collab E)
  | Some s => s
  end.

(** The arguments of [_exec] as [run] and the first lines of [_exec] make
    them. *)
Definition exec_args (E : Engine) (inputs_ : list Dict) (rid : option string)
           (dir : Path) (raise_flag : bool) : ExecArgs :=
  mkExecArgs
    (map (apply_default_value_for_input (collab E) (inputs (_flow E))) inputs_)
    (resolve_run_id E rid)
    (resolve_dir_to_absolute (collab E) (_working_dir E) dir)
    raise_flag.

(** The [except Exception] clause of [run]. *)
Definition run_handle {A : Type} (o : Outcome A) : Outcome A :=
  match o with
  | Ret r => Ret r
  | Raise e =>
      if exc_is_promptflow e then Raise e else Raise (run_unexpected_error e)
  end.

(** [self._executor_proxy.destroy()] *)
Definition destroy (w : World) : World :=
  with_destroy_calls w (S (destroy_calls w)).

(** [run].  [processed] is what [process_batch_inputs] does (the input
    processor is not part of the sources at hand).  The result is [None]
    when the events given do not bring the supervisor to its [return]. *)
Definition run (E : Engine) (w : World) (processed : Outcome (list Dict))
           (dir : Path) (rid : option string) (raise_flag : bool)
           (evs : list Event)
  : option (World * Outcome (option BatchResult)) :=
  let w := with_start_time w (utcnow w) in
  let body :=
    match processed with
    | Raise e => Some (w, Raise e)
    | Ret inputs_ =>
        let w' := _exec_in_task E (exec_args E inputs_ rid dir raise_flag) w evs in
        match supervisor w' with
        | Some o => Some (w', o)
        | None => None
        end
    end in
  match body with
  | None => None
  | Some (w', o) => Some (destroy w', run_handle o)   (* except / finally *)
  end.

(** ** [AttrDict] of the tools' tests *)

(** What the class of an object offers to attribute lookup: the names that
    are data descriptors (they win over the instance), and the other names
    found on the class or its bases (methods and the like). *)
Record PyClass : Type := mkPyClass {
  data_descriptors : list string;
  class_attributes : list string
}.

(** An [AttrDict]: the items of the dict, and the attributes set on the
    instance (its [__dict__]). *)
Record AttrDict : Type := mkAttrDict {
  entries : Dict;
  instance_dict : Dict
}.

(** What an attribute access hands back. *)
Inductive Attr : Type :=
| Value (v : PyVal)
| ClassAttribute (attr_name : string).

Definition mem_string (s : string) (l : list string) : bool :=
  existsb (String.eqb s) l.

Definition AttributeError (item : string) : PyExc :=
  Exc false "AttributeError"
      ("'AttrDict' object has no attribute '" +++ item +++ "'").

(** [object.__getattribute__], the ordinary lookup: data descriptors of the
    class, then the instance, then the rest of the class. *)
Definition __getattribute__ (C : PyClass) (d : AttrDict) (item : string)
  : Outcome Attr :=
  if mem_string item (data_descriptors C) then Ret (ClassAttribute item)
  else match dict_get item (instance_dict d) with
       | Some v => Ret (Value v)
       | None =>
           if mem_string item (class_attributes C) then Ret (ClassAttribute item)
           else Raise (AttributeError item)
       end.

(** [dict.__getitem__] *)
Definition __getitem__ (d : AttrDict) (item : string) : Outcome Attr :=
  match dict_get item (entries d) with
  | Some v => Ret (Value v)
  | None => Raise (Exc false "KeyError" item)
  end.

(** [AttrDict.__getattr__] *)
Definition __getattr__ (C : PyClass) (d : AttrDict) (item : string)
  : Outcome Attr :=
  if dict_contains item (entries d) then __getitem__ d item
  else __getattribute__ C d item.

(** The attribute access [d.item]: Python calls [__getattr__] only when the
    ordinary lookup has raised [AttributeError]. *)
Definition getattr (C : PyClass) (d : AttrDict) (item : string) : Outcome Attr :=
  match __getattribute__ C d item with
  | Ret v => Ret v
  | Raise _ => __getattr__ C d item
  end.

(** The public methods every Python 3 [dict] has, and the data descriptors
    an instance of a subclass of [dict] has. *)
Definition dict_class : PyClass :=
  mkPyClass
    ["__class__"; "__dict__"]
    ["clear"; "copy"; "fromkeys"; "get"; "items"; "keys"; "pop"; "popitem";
     "setdefault"; "update"; "values"; "__getattr__"; "__init__";
     "__getitem__"; "__setitem__"; "__contains__"; "__len__"; "__iter__"].

(** ** Vocabulary of the properties *)

(** Ascending line index. *)
Definition index_le (r1 r2 : LineResult) : Prop :=
  index (run_info r1) <= index (run_info r2).

(** [sub] occurs in [s]. *)
Definition contains (s sub : string) : Prop :=
  exists pre post, s = pre +++ sub +++ post.

(** The line results the tasks of [p] have returned. *)
Fixpoint done_results (p : list (nat * LineTask)) : list LineResult :=
  match p with
  | [] => []
  | (_, Finished (Ret r)) :: p' => r :: done_results p'
  | _ :: p' => done_results p'
  end.

(** The line results the executor has returned so far, as recorded. *)
Fixpoint log_results (l : list (nat * Outcome LineResult)) : list LineResult :=
  match l with
  | [] => []
  | (_, Ret r) :: l' => r :: log_results l'
  | (_, Raise _) :: l' => log_results l'
  end.

(** A result of the supervisor made on the cancellation path. *)
Definition canceled_result (o : Outcome (option BatchResult)) : Prop :=
  exists br, o = Ret (Some br) /\ br_status br = Canceled.

(** The output file of a run. *)
Definition output_file (a : ExecArgs) : Path := output_dir a ++ [OUTPUT_FILE_NAME].

(** The state of a run whose lines have all been collected: as many results
    as inputs, in ascending order of index, being the results the executor
    returned, and no task left. *)
Definition lines_complete (a : ExecArgs) (w : World) : Prop :=
  List.length (_line_results w) = List.length (batch_inputs a)
  /\ Sorted index_le (_line_results w)
  /\ Permutation (_line_results w) (log_results (executor_log w))
  /\ pending w = [].


(** The worker, between two of its suspensions, touches neither the flag,
    the clock, the tasks, the supervisor nor the executor's teardown. *)
Definition same_frame (w w' : World) : Prop :=
  _is_canceled w' = _is_canceled w
  /\ _start_time w' = _start_time w
  /\ clock w' = clock w
  /\ pending w' = pending w
  /\ must_cancel w' = must_cancel w
  /\ supervisor w' = supervisor w
  /\ executor_log w' = executor_log w
  /\ destroy_calls w' = destroy_calls w.


(** The ways [_exec_after_batch] can go, from the world [w] with the line
    results [lrs]. *)
Inductive AfterBatch (E : Engine) (a : ExecArgs) (w : World)
          (lrs : list LineResult) : World -> Prop :=
| AB_line_failures e :
    handle_line_failures (map run_info lrs) (raise_on_line_failure a) = Raise e ->
    AfterBatch E a w lrs (finish (with_line_results w lrs) (Raise e))
| AB_aggregation_raises u e :
    handle_line_failures (map run_info lrs) (raise_on_line_failure a) = Ret u ->
    _exec_aggregation_begin E (batch_inputs a) lrs = Raise e ->
    AfterBatch E a w lrs (finish (with_line_results w lrs) (Raise e))
| AB_no_aggregation u r :
    handle_line_failures (map run_info lrs) (raise_on_line_failure a) = Ret u ->
    _exec_aggregation_begin E (batch_inputs a) lrs = Ret (ReturnsAtOnce r) ->
    AfterBatch E a w lrs (_exec_after_aggregation E a (with_line_results w lrs) r)
| AB_calls_executor u c1 c2 :
    handle_line_failures (map run_info lrs) (raise_on_line_failure a) = Ret u ->
    _exec_aggregation_begin E (batch_inputs a) lrs = Ret (CallsExecutor c1 c2) ->
    AfterBatch E a w lrs
      (with_exec_pc
         (with_aggregation_calls (with_line_results w lrs)
            (aggregation_calls w ++ [(c1, c2, run_id a)]))
         AwaitAggregation).

(** The ways the head of the loop of [_exec_batch] can go. *)
Inductive BatchLoop (E : Engine) (a : ExecArgs) (w : World) (c : nat)
  : World -> Prop :=
| BL_nothing_to_wait_for :
    c < List.length (batch_inputs a) -> pending w = [] ->
    BatchLoop E a w c
      (finish w (Raise (Exc false "ValueError" "Set of Tasks/Futures is empty.")))
| BL_wait :
    c < List.length (batch_inputs a) -> pending w <> [] ->
    BatchLoop E a w c (with_exec_pc w (AwaitWait c 15))
| BL_exit w' :
    List.length (batch_inputs a) <= c ->
    AfterBatch E a w (sorted_by_index (_line_results w)) w' ->
    BatchLoop E a w c w'.

(** A finished worker that returned a run summary has built it from the
    engine's line results, and has written the output file from them. *)
Definition done_is_well_formed (E : Engine) (a : ExecArgs) (w : World) : Prop :=
  forall br, exec_pc w = Done (Ret (Some br)) ->
    br_status br = Completed
    /\ line_results br = _line_results w
    /\ aggr_results br = _aggr_results w
    /\ start_time br <= end_time br
    /\ read_file (output_file a) (files w)
       = Some (map (output_record E) (filter is_completed (_line_results w))).

(** The invariant of the event loop that holds for every executor. *)
Definition loop_invariant (E : Engine) (a : ExecArgs) (w : World) : Prop :=
  (supervisor w = None ->
     must_cancel w = false
     /\ exec_pc w <> NoTask
     /\ exec_pc w <> Done (Ret None)
     /\ forall c, exec_pc w <> AwaitSemaphore c)
  /\ _start_time w <= clock w
  /\ done_is_well_formed E a w
  /\ (forall o, supervisor w = Some o ->
        (exists br, o = Ret (Some br) /\ br_status br = Canceled
                    /\ start_time br <= end_time br)
        \/ (exec_pc w = Done o /\ must_cancel w = false /\ o <> Ret None)).

(** Every task that has finished did so by an answer of the executor that
    is on record. *)
Definition tasks_logged (w : World) : Prop :=
  forall i o, In (i, Finished o) (pending w) -> In (i, o) (executor_log w).

(** What [handle_line_failures] says about the line results at hand. *)
Definition line_failures (a : ExecArgs) (w : World) : Outcome unit :=
  handle_line_failures (map run_info (_line_results w)) (raise_on_line_failure a).

(** The invariant of the line scheduler, while no cancellation has reached
    the worker: results and tasks add up to the number of lines, and the
    results are those the executor returned. *)
Definition lines_invariant (a : ExecArgs) (w : World) : Prop :=
  List.length (_line_results w) + List.length (pending w)
    <= List.length (batch_inputs a)
  /\ match exec_pc w with
     | AwaitWait c _ =>
         c = List.length (_line_results w)
         /\ List.length (_line_results w) + List.length (pending w)
            = List.length (batch_inputs a)
         /\ pending w <> []
         /\ Permutation (_line_results w ++ done_results (pending w))
                        (log_results (executor_log w))
         /\ tasks_logged w
     | AwaitAggregation =>
         lines_complete a w /\ line_failures a w = Ret tt
     | Done o =>
         (exists i e, In (i, Raise e) (executor_log w) /\ o = Raise e)
         \/ (lines_complete a w
             /\ forall e, line_failures a w = Raise e -> o = Raise e)
     | NoTask | AwaitSemaphore _ => False
     end.

(** The invariant of a run on the line scheduler. *)
Definition scheduler_invariant (a : ExecArgs) (w : World) : Prop :=
  (supervisor w = None -> lines_invariant a w)
  /\ (forall o, supervisor w = Some o ->
        (exists br, o = Ret (Some br) /\ br_status br = Canceled
                    /\ List.length (line_results br)
                       <= List.length (batch_inputs a))
        \/ (exec_pc w = Done o /\ must_cancel w = false /\ lines_invariant a w)).

(** ** Sample engines, inputs and schedules *)

Definition sample_collab : Collaborators :=
  mkCollaborators "line_number" "5f0c" (fun _ d => d) (fun _ d => Ret d)
                  (fun _ => ["acc"]) (fun wd d => wd ++ d).

(** A flow with one input, one ordinary node and one aggregation node. *)
Definition flow_with_aggregation : Flow :=
  mkFlow ["q"] [mkNode "answer" false; mkNode "accuracy" true].

(** The same flow without the aggregation node. *)
Definition flow_without_aggregation : Flow :=
  mkFlow ["q"] [mkNode "answer" false].

Definition engine_with_aggregation : Engine :=
  mkEngine sample_collab ["flows"] flow_with_aggregation OtherExecutorProxy.

Definition engine_without_aggregation : Engine :=
  mkEngine sample_collab ["flows"] flow_without_aggregation OtherExecutorProxy.

Definition line_input (s : string) : Dict := [("q", VStr s)].

Definition line_result (i : nat) (st : Status) (out : string) : LineResult :=
  mkLineResult [("out", VStr out)] [("acc", VInt (Z.of_nat i))]
               (mkRunInfo i st (match st with Failed => "boom" | _ => "" end)).

Definition three_inputs : list Dict :=
  [line_input "a"; line_input "b"; line_input "c"].

(** Three lines; line 2 ends first, then line 0 fails, then line 1 ends;
    the worker wakes twice; the supervisor's sleep ends afterwards. *)
Definition out_of_order_events : list Event :=
  [EvLineDone 2 (Ret (line_result 2 Completed "C")); EvWaitWake;
   EvLineDone 0 (Ret (line_result 0 Failed ""));
   EvLineDone 1 (Ret (line_result 1 Completed "B")); EvWaitWake;
   EvClock 3; EvSleepDone].

(** Three lines; only line 2 has been collected when [cancel()] is called;
    the supervisor sees the flag at its next poll, and the cancellation
    reaches the worker. *)
Definition cancel_mid_run_events : list Event :=
  [EvLineDone 2 (Ret (line_result 2 Completed "C")); EvWaitWake;
   EvCancel; EvClock 1; EvSleepDone; EvCancelDelivered].

(** Seventeen lines, one more than [DEFAULT_CONCURRENCY]. *)
Definition seventeen_inputs : list Dict :=
  map (fun _ => line_input "x") (seq 0 17).

(** A line whose output has a field named like the line number key. *)
Definition line_result_with_line_number : LineResult :=
  mkLineResult [("line_number", VInt 7)] [] (mkRunInfo 0 Completed "").

(** The run of the three lines that end out of order, on the flow without
    aggregation: the world it leaves and the summary it returns. *)
Definition out_of_order_run : option (World * Outcome (option BatchResult)) :=
  run engine_without_aggregation (BatchEngine_init 0) (Ret three_inputs)
      ["out"] None false out_of_order_events.

Definition out_of_order_world : World :=
  Eval vm_compute in
    match out_of_order_run with
    | Some (w, _) => w
    | None => BatchEngine_init 0
    end.

Definition out_of_order_summary : BatchResult :=
  Eval vm_compute in
    match out_of_order_run with
    | Some (_, Ret (Some br)) => br
    | _ => BatchResult_create 0 0 [] empty_AggregationResult None
    end.

Definition world_of (r : option (World * Outcome (option BatchResult))) : World :=
  match r with
  | Some (w, _) => w
  | None => BatchEngine_init 0
  end.

Definition outcome_of (r : option (World * Outcome (option BatchResult)))
  : Outcome (option BatchResult) :=
  match r with
  | Some (_, o) => o
  | None => Ret None
  end.

(** A run whose input processing raises a classified error. *)
Definition bad_inputs_error : PyExc :=
  Exc true "InputMappingError" "no input data".

Definition bad_inputs_run : option (World * Outcome (option BatchResult)) :=
  run engine_with_aggregation (BatchEngine_init 0) (Raise bad_inputs_error)
      ["out"] None false [].

Definition bad_inputs_world : World := Eval vm_compute in world_of bad_inputs_run.

(** The run that is canceled after line 2. *)
Definition canceled_run : option (World * Outcome (option BatchResult)) :=
  run engine_with_aggregation (BatchEngine_init 0) (Ret three_inputs)
      ["out"] None false cancel_mid_run_events.

Definition canceled_world : World := Eval vm_compute in world_of canceled_run.

Definition canceled_outcome : Outcome (option BatchResult) :=
  Eval vm_compute in outcome_of canceled_run.

(** An error of the executor that is not classified. *)
Definition key_error : PyExc := Exc false "KeyError" "acc".


(** The first statement of [run]: the start time is read off the clock. *)
Definition started (w : World) : World := with_start_time w (utcnow w).

(** The world of a run after the events [evs]. *)
Definition run_world (E : Engine) (w : World) (inputs_ : list Dict)
           (dir : Path) (rid : option string) (flag : bool)
           (evs : list Event) : World :=
  _exec_in_task E (exec_args E inputs_ rid dir flag) (started w) evs.









(** The three lines end and are collected: the worker waits for the
    executor's aggregation. *)
Definition lines_collected_events : list Event :=
  [EvLineDone 0 (Ret (line_result 0 Completed "A"));
   EvLineDone 1 (Ret (line_result 1 Completed "B"));
   EvLineDone 2 (Ret (line_result 2 Completed "C")); EvWaitWake].

(** The executor raises a [KeyError] for line 1, and the worker collects
    it. *)
Definition raising_prefix_events : list Event :=
  [EvLineDone 1 (Raise key_error); EvWaitWake].

(** ** The registry of executor proxy classes and [__init__] *)

(** [BatchEngine.executor_proxy_classes]: a dict of the class, from the
    program language of a flow to the class of its executor proxy.  The
    classes are kept abstract (type [C]). *)
Definition ProxyClasses (C : Type) : Type := list (string * C).

(** [cls.executor_proxy_classes[type] = executor_proxy_cls]: the class of a
    language already there is replaced, a new language goes last. *)
Fixpoint register_executor {C : Type} (type : string) (executor_proxy_cls : C)
         (classes : ProxyClasses C) : ProxyClasses C :=
  match classes with
  | [] => [(type, executor_proxy_cls)]
  | (k, c) :: classes' =>
      if String.eqb type k then (k, executor_proxy_cls) :: classes'
      else (k, c) :: register_executor type executor_proxy_cls classes'
  end.

(** [self.executor_proxy_classes[language]]: [KeyError] for a language
    without a class. *)
Fixpoint executor_proxy_class {C : Type} (classes : ProxyClasses C)
         (language : string) : Outcome C :=
  match classes with
  | [] => Raise (Exc false "KeyError" language)
  | (k, c) :: classes' =>
      if String.eqb language k then Ret c
      else executor_proxy_class classes' language
  end.

(** The dict the class starts with: [{FlowLanguage.Python:
    PythonExecutorProxy, FlowLanguage.CSharp: CSharpExecutorProxy}].  The
    two constants of [FlowLanguage] and the two classes are parameters. *)
Definition executor_proxy_classes {C : Type} (Python CSharp : string)
           (PythonExecutorProxy_class CSharpExecutorProxy_class : C)
  : ProxyClasses C :=
  register_executor CSharp CSharpExecutorProxy_class
    (register_executor Python PythonExecutorProxy_class []).

(** What [__init__] calls: the loading and the validation of the flow, the
    language the flow declares, and [create] of a proxy class.  They come
    from modules that are not part of the sources at hand and are
    parameters of the model.  A storage is known by its name. *)
Record InitCollaborators (C : Type) : Type := mkInitCollaborators {
  _resolve_working_dir : Path -> option Path -> Outcome Path;
  from_yaml : Path -> Path -> Outcome Flow;
  ensure_flow_valid_in_batch_mode : Flow -> Outcome unit;
  program_language : Flow -> string;
  create : C -> Path -> Path -> option Dict -> option string -> Dict
           -> Outcome ExecutorProxy
}.
Arguments _resolve_working_dir {C} _ _ _.
Arguments from_yaml {C} _ _ _.
Arguments ensure_flow_valid_in_batch_mode {C} _ _.
Arguments program_language {C} _ _.
Arguments create {C} _ _ _ _ _ _ _.

(** [BatchEngine.__init__]: the engine it makes and the state it starts
    in. *)
Definition __init__ {C : Type} (I : InitCollaborators C) (K : Collaborators)
           (classes : ProxyClasses C) (flow_file : Path)
           (working_dir : option Path) (connections : option Dict)
           (storage : option string) (kwargs : Dict) (now : nat)
  : Outcome (Engine * World) :=
  working_dir_ <- _resolve_working_dir I flow_file working_dir ;;
  flow <- from_yaml I flow_file working_dir_ ;;
  _ <- ensure_flow_valid_in_batch_mode I flow ;;
  executor_proxy_cls <- executor_proxy_class classes (program_language I flow) ;;
  proxy <- create I executor_proxy_cls flow_file working_dir_
                  connections storage kwargs ;;
  Ret (mkEngine K working_dir_ flow proxy, BatchEngine_init now).

(** ** More of [AttrDict] *)

(** [d[item] = v], inherited from [dict]. *)
Definition __setitem__ (d : AttrDict) (item : string) (v : PyVal) : AttrDict :=
  mkAttrDict (dict_set item v (entries d)) (instance_dict d).

(** [AttrDict(pairs, **kwargs)]: [__init__] hands everything to [dict]. *)
Definition AttrDict_init (pairs kwargs : Dict) : AttrDict :=
  mkAttrDict (dict_update (dict_update [] pairs) kwargs) [].

(** [hasattr(d, item)]: false when the access raises [AttributeError]; any
    other exception goes through. *)
Definition hasattr (C : PyClass) (d : AttrDict) (item : string) : Outcome bool :=
  match getattr C d item with
  | Ret _ => Ret true
  | Raise e =>
      if String.eqb (exc_class_name e) "AttributeError" then Ret false
      else Raise e
  end.

(** ** Vocabulary of the further properties *)

Definition line_index (r : LineResult) : nat := index (run_info r).

(** Every line result stands at the position of its line. *)
Definition aligned (lrs : list LineResult) : Prop :=
  forall j r, nth_error lrs j = Some r -> line_index r = j.

(** The executor's aggregation has been called once in this run, with the
    id of the run. *)
Definition one_aggregation_call (a : ExecArgs)
           (calls0 : list (Columns * Columns * string)) (w : World) : Prop :=
  exists c1 c2, aggregation_calls w = calls0 ++ [(c1, c2, run_id a)].

(** What the worker keeps, whatever the executor: it never waits for the
    semaphore and holds its only unit while it waits for the tasks; a
    summary it has made carries the start time of the run and an end time
    that has passed; it has written nothing but, together with making a
    summary, the output file; and it has called the executor's aggregation
    at most once, not before it has left the lines, and before it makes a
    summary in a flow with aggregation nodes.  [files0] and [calls0] are
    the files and the calls before the run. *)
Definition worker_invariant (E : Engine) (a : ExecArgs)
           (files0 : list (Path * list Dict))
           (calls0 : list (Columns * Columns * string)) (w : World) : Prop :=
  match exec_pc w with
  | NoTask | AwaitSemaphore _ => False
  | AwaitWait _ v =>
      v = DEFAULT_CONCURRENCY - 1
      /\ files w = files0 /\ aggregation_calls w = calls0
  | AwaitAggregation =>
      files w = files0
      /\ aggregation_nodes (_flow E) <> []
      /\ one_aggregation_call a calls0 w
  | Done (Ret (Some br)) =>
      start_time br = _start_time w
      /\ end_time br <= clock w
      /\ files w
         = (output_file a,
            map (output_record E) (filter is_completed (line_results br)))
             :: files0
      /\ ((aggregation_nodes (_flow E) = [] /\ aggregation_calls w = calls0)
          \/ (aggregation_nodes (_flow E) <> []
              /\ one_aggregation_call a calls0 w))
  | Done _ =>
      files w = files0
      /\ (aggregation_calls w = calls0 \/ one_aggregation_call a calls0 w)
  end.

(** The tasks of the line scheduler and the answers of the executor: one
    task per line, named by the position of the line; every line has been
    answered at most once, and a line that has been answered is not running
    any more. *)
Definition tasks_invariant (a : ExecArgs) (w : World) : Prop :=
  NoDup (map fst (pending w))
  /\ NoDup (map fst (executor_log w))
  /\ (forall i, In i (map fst (pending w)) -> i < List.length (batch_inputs a))
  /\ (forall i, In i (map fst (executor_log w)) ->
                i < List.length (batch_inputs a) /\ ~ In (i, Running) (pending w))
  /\ List.length (executor_log w) + in_flight w = List.length (batch_inputs a).

(** The state of a run on [PythonExecutorProxy] whose [_exec_batch] has
    returned [lrs]: no task, the line results are [lrs], and the worker is
    past the lines. *)
Definition delegated (lrs : list LineResult)
           (log0 : list (nat * Outcome LineResult)) (w : World) : Prop :=
  pending w = []
  /\ executor_log w = log0
  /\ _line_results w = lrs
  /\ (exec_pc w = AwaitAggregation \/ exists o, exec_pc w = Done o).

(** ** More samples *)

(** An engine on [PythonExecutorProxy] whose [_exec_batch] returns the
    results of two lines, the later line first. *)
Definition python_results : list LineResult :=
  [line_result 1 Completed "B"; line_result 0 Completed "A"].

Definition python_engine : Engine :=
  mkEngine sample_collab ["flows"] flow_without_aggregation
           (PythonExecutorProxy (fun _ _ _ => Ret python_results)).

(** A registry with the two classes the engine starts with. *)
Definition sample_classes : ProxyClasses string :=
  executor_proxy_classes "python" "csharp"
                         "PythonExecutorProxy" "CSharpExecutorProxy".

Definition sample_init : InitCollaborators string :=
  mkInitCollaborators string
    (fun _ wd => Ret (match wd with Some d => d | None => ["flows"] end))
    (fun _ _ => Ret flow_without_aggregation)
    (fun _ => Ret tt)
    (fun _ => "typescript")
    (fun _ _ _ _ _ _ => Ret OtherExecutorProxy).

(** A run on an engine whose [cancel()] was called before the run: all
    three lines end and are collected before the supervisor's first poll. *)
Definition canceled_before_run : option (World * Outcome (option BatchResult)) :=
  run engine_without_aggregation (cancel (BatchEngine_init 0)) (Ret three_inputs)
      ["out"] None false out_of_order_events.

Definition canceled_before_world : World :=
  Eval vm_compute in world_of canceled_before_run.

Definition canceled_before_outcome : Outcome (option BatchResult) :=
  Eval vm_compute in outcome_of canceled_before_run.

(** A second run on the engine of the run that was canceled after line 2:
    line 0 ends and is collected, then the supervisor polls. *)
Definition second_run_events : list Event :=
  [EvLineDone 0 (Ret (line_result 0 Completed "A")); EvWaitWake; EvSleepDone].

Definition second_run : option (World * Outcome (option BatchResult)) :=
  run engine_with_aggregation canceled_world (Ret three_inputs)
      ["out"] None false second_run_events.

Definition second_world : World := Eval vm_compute in world_of second_run.

Definition second_summary : BatchResult :=
  Eval vm_compute in
    match second_run with
    | Some (_, Ret (Some br)) => br
    | _ => BatchResult_create 0 0 [] empty_AggregationResult None
    end.

(** A run on [PythonExecutorProxy]. *)
Definition python_run : option (World * Outcome (option BatchResult)) :=
  run python_engine (BatchEngine_init 0) (Ret three_inputs) ["out"] None false
      [EvClock 2; EvSleepDone].

Definition python_world : World := Eval vm_compute in world_of python_run.

Definition python_summary : BatchResult :=
  Eval vm_compute in
    match python_run with
    | Some (_, Ret (Some br)) => br
    | _ => BatchResult_create 0 0 [] empty_AggregationResult None
    end.

(** A run in which the executor raises for line 1. *)
Definition raising_events : list Event :=
  [EvLineDone 1 (Raise key_error); EvWaitWake; EvSleepDone].

Definition raising_run : option (World * Outcome (option BatchResult)) :=
  run engine_without_aggregation (BatchEngine_init 0) (Ret three_inputs)
      ["out"] None false raising_events.

Definition raising_world : World := Eval vm_compute in world_of raising_run.

Definition raising_outcome : Outcome (option BatchResult) :=
  Eval vm_compute in outcome_of raising_run.

(** A completed run on the flow with an aggregation node. *)
Definition aggregated_events : list Event :=
  [EvLineDone 0 (Ret (line_result 0 Completed "A"));
   EvLineDone 1 (Ret (line_result 1 Completed "B"));
   EvLineDone 2 (Ret (line_result 2 Failed "")); EvWaitWake;
   EvAggregationDone (Ret empty_AggregationResult); EvClock 1; EvSleepDone].

Definition aggregated_run : option (World * Outcome (option BatchResult)) :=
  run engine_with_aggregation (BatchEngine_init 0) (Ret three_inputs)
      ["out"] (Some "run7") false aggregated_events.

Definition aggregated_world : World := Eval vm_compute in world_of aggregated_run.

Definition aggregated_outcome : Outcome (option BatchResult) :=
  Eval vm_compute in outcome_of aggregated_run.
(** * Properties *)

(** ** Sorting *)

Lemma insert_by_index_perm (r : LineResult) (l : list LineResult) :
  Permutation (insert_by_index r l) (r :: l).
Proof.
  induction l as [|x l IH]; simpl.
  - apply Permutation_refl.
  - destruct (Nat.leb (index (run_info r)) (index (run_info x))).
    + apply Permutation_refl.
    + apply perm_trans with (x :: r :: l).
      * now apply perm_skip.
      * apply perm_swap.
Qed.

Lemma sorted_by_index_perm (l : list LineResult) :
  Permutation (sorted_by_index l) l.
Proof.
  induction l as [|r l IH]; simpl.
  - constructor.
  - eapply perm_trans; [apply insert_by_index_perm|].
    now apply perm_skip.
Qed.

Lemma sorted_by_index_length (l : list LineResult) :
  List.length (sorted_by_index l) = List.length l.
Proof. apply Permutation_length, sorted_by_index_perm. Qed.

Lemma insert_by_index_HdRel (x r : LineResult) (l : list LineResult) :
  index_le x r -> HdRel index_le x l -> HdRel index_le x (insert_by_index r l).
Proof.
  intros Hxr Hx. destruct l as [|y l]; simpl.
  - now constructor.
  - destruct (Nat.leb (index (run_info r)) (index (run_info y)));
      constructor; auto.
    now inversion Hx.
Qed.

Lemma insert_by_index_sorted (r : LineResult) (l : list LineResult) :
  Sorted index_le l -> Sorted index_le (insert_by_index r l).
Proof.
  induction l as [|x l IH]; intros Hs; simpl.
  - repeat constructor.
  - inversion Hs as [|? ? Hl Hx]; subst.
    destruct (Nat.leb_spec (index (run_info r)) (index (run_info x))) as [Hle|Hgt].
    + constructor; [assumption|]. constructor. exact Hle.
    + constructor; [now apply IH|].
      apply insert_by_index_HdRel; [unfold index_le; lia | exact Hx].
Qed.

Lemma sorted_by_index_sorted (l : list LineResult) :
  Sorted index_le (sorted_by_index l).
Proof.
  induction l as [|r l IH]; simpl.
  - constructor.
  - now apply insert_by_index_sorted.
Qed.

Lemma sorted_by_index_In (l : list LineResult) (r : LineResult) :
  In r (sorted_by_index l) <-> In r l.
Proof.
  split; apply Permutation_in;
    [apply sorted_by_index_perm | apply Permutation_sym, sorted_by_index_perm].
Qed.

(** The sort is stable: the line results with a given index stand in the
    sorted list in the order they had before. *)
Lemma insert_by_index_stable (k : nat) (r : LineResult) (l : list LineResult) :
  Sorted index_le l ->
  filter (fun x => Nat.eqb (index (run_info x)) k) (insert_by_index r l)
  = filter (fun x => Nat.eqb (index (run_info x)) k) (r :: l).
Proof.
  induction l as [|x l IH]; intros Hs; [reflexivity|].
  cbn [insert_by_index].
  destruct (Nat.leb_spec (index (run_info r)) (index (run_info x))) as [Hle|Hgt];
    [reflexivity|].
  assert (Hl : Sorted index_le l) by now inversion Hs.
  cbn [filter]. rewrite (IH Hl). cbn [filter].
  destruct (Nat.eqb_spec (index (run_info x)) k) as [Hx|Hx];
    destruct (Nat.eqb_spec (index (run_info r)) k) as [Hr|Hr];
    try reflexivity.
  lia.
Qed.

Lemma sorted_by_index_stable (k : nat) (l : list LineResult) :
  filter (fun x => Nat.eqb (index (run_info x)) k) (sorted_by_index l)
  = filter (fun x => Nat.eqb (index (run_info x)) k) l.
Proof.
  induction l as [|r l IH]; [reflexivity|].
  cbn [sorted_by_index fold_right].
  rewrite insert_by_index_stable by apply sorted_by_index_sorted.
  cbn [filter]. fold (sorted_by_index l). now rewrite IH.
Qed.

(** ** Strings *)

Lemma append_assoc (s1 s2 s3 : string) : (s1 +++ s2) +++ s3 = s1 +++ s2 +++ s3.
Proof. induction s1 as [|c s1 IH]; simpl; [reflexivity | now rewrite IH]. Qed.







(** ** What a step leaves alone *)

Ltac split_match :=
  match goal with
  | |- context [match ?x with _ => _ end] => destruct x eqn:?
  | |- context [if ?x then _ else _] => destruct x eqn:?
  end.

Ltac step_cases := unfold step; repeat (progress simpl || split_match).

Lemma after_batch_frame E a w lrs : same_frame w (_exec_after_batch E a w lrs).
Proof.
  unfold _exec_after_batch, same_frame.
  repeat (progress simpl || split_match); repeat split; congruence.
Qed.

Lemma batch_loop_frame E a w c : same_frame w (_exec_batch_loop E a w c).
Proof.
  unfold _exec_batch_loop.
  destruct (Nat.ltb c (List.length (batch_inputs a))).
  - unfold same_frame. repeat (progress simpl || split_match);
      repeat split; congruence.
  - apply after_batch_frame.
Qed.

Ltac use_frame H :=
  let H1 := fresh in
  pose proof H as H1; unfold same_frame in H1; simpl in H1;
  destruct H1 as (? & ? & ? & ? & ? & ? & ? & ?).

Ltac frames :=
  repeat match goal with
    | |- context [_exec_batch_loop ?E ?a ?w ?c] =>
        use_frame (batch_loop_frame E a w c);
        generalize dependent (_exec_batch_loop E a w c); intros
    | |- context [_exec_after_batch ?E ?a ?w ?l] =>
        use_frame (after_batch_frame E a w l);
        generalize dependent (_exec_after_batch E a w l); intros
    end.

Lemma task_cancel_frame w :
  _is_canceled (task_cancel w) = _is_canceled w
  /\ _line_results (task_cancel w) = _line_results w
  /\ _aggr_results (task_cancel w) = _aggr_results w
  /\ _start_time (task_cancel w) = _start_time w
  /\ clock (task_cancel w) = clock w
  /\ pending (task_cancel w) = pending w
  /\ exec_pc (task_cancel w) = exec_pc w
  /\ supervisor (task_cancel w) = supervisor w
  /\ aggregation_calls (task_cancel w) = aggregation_calls w
  /\ files (task_cancel w) = files w
  /\ executor_log (task_cancel w) = executor_log w
  /\ destroy_calls (task_cancel w) = destroy_calls w.
Proof.
  unfold task_cancel. destruct (exec_pc w) eqn:Hpc; simpl;
    repeat split; congruence.
Qed.

Ltac cancel_frame w :=
  let H := fresh in
  pose proof (task_cancel_frame w) as H;
  destruct H as (? & ? & ? & ? & ? & ? & ? & ? & ? & ? & ? & ?);
  unfold utcnow;
  repeat match goal with
    | H : _ (task_cancel w) = _ |- _ => rewrite !H
    end.

Lemma step_destroy_calls E a w ev :
  destroy_calls (step E a w ev) = destroy_calls w.
Proof.
  destruct ev; step_cases; try reflexivity; frames; try congruence.
  cancel_frame w; congruence.
Qed.

Lemma step_start_time E a w ev :
  _start_time (step E a w ev) = _start_time w.
Proof.
  destruct ev; step_cases; try reflexivity; frames; try congruence.
  cancel_frame w; congruence.
Qed.

Lemma step_clock E a w ev : clock w <= clock (step E a w ev).
Proof.
  destruct ev; step_cases; try lia; frames; try lia.
  cancel_frame w; lia.
Qed.

Lemma step_is_canceled E a w ev :
  _is_canceled w = true -> _is_canceled (step E a w ev) = true.
Proof.
  intros Hc. destruct ev; step_cases; auto; frames; try congruence.
  cancel_frame w; congruence.
Qed.

Lemma step_supervisor E a w ev o :
  supervisor w = Some o -> supervisor (step E a w ev) = Some o.
Proof.
  intros Hs. destruct ev; step_cases; auto; frames; congruence.
Qed.

Lemma steps_destroy_calls E a evs w :
  destroy_calls (fold_left (step E a) evs w) = destroy_calls w.
Proof.
  revert w. induction evs as [|ev evs IH]; intros w; simpl; [reflexivity|].
  now rewrite IH, step_destroy_calls.
Qed.

Lemma steps_start_time E a evs w :
  _start_time (fold_left (step E a) evs w) = _start_time w.
Proof.
  revert w. induction evs as [|ev evs IH]; intros w; simpl; [reflexivity|].
  now rewrite IH, step_start_time.
Qed.

Lemma steps_clock E a evs w : clock w <= clock (fold_left (step E a) evs w).
Proof.
  revert w. induction evs as [|ev evs IH]; intros w; simpl; [lia|].
  pose proof (step_clock E a w ev). pose proof (IH (step E a w ev)). lia.
Qed.

Lemma steps_is_canceled E a evs w :
  _is_canceled w = true -> _is_canceled (fold_left (step E a) evs w) = true.
Proof.
  revert w. induction evs as [|ev evs IH]; intros w H; simpl; [exact H|].
  now apply IH, step_is_canceled.
Qed.

Lemma steps_supervisor E a evs w o :
  supervisor w = Some o -> supervisor (fold_left (step E a) evs w) = Some o.
Proof.
  revert w. induction evs as [|ev evs IH]; intros w H; simpl; [exact H|].
  now apply IH, step_supervisor.
Qed.

(** ** The ways of the worker *)

Lemma after_batch_cases E a w lrs :
  AfterBatch E a w lrs (_exec_after_batch E a w lrs).
Proof.
  unfold _exec_after_batch. simpl.
  destruct (handle_line_failures (map run_info lrs) (raise_on_line_failure a))
    as [u|e] eqn:Hf.
  - destruct (_exec_aggregation_begin E (batch_inputs a) lrs) as [[r|c1 c2]|e] eqn:Hb.
    + eapply AB_no_aggregation; eassumption.
    + eapply AB_calls_executor; eassumption.
    + eapply AB_aggregation_raises; eassumption.
  - now apply AB_line_failures.
Qed.

Lemma batch_loop_cases E a w c :
  BatchLoop E a w c (_exec_batch_loop E a w c).
Proof.
  unfold _exec_batch_loop.
  destruct (Nat.ltb_spec c (List.length (batch_inputs a))) as [Hlt|Hge].
  - simpl. destruct (pending w) eqn:Hp.
    + now apply BL_nothing_to_wait_for.
    + apply BL_wait; [exact Hlt | congruence].
  - apply BL_exit; [exact Hge | apply after_batch_cases].
Qed.

Ltac worker_cases :=
  repeat match goal with
    | |- context [_exec_batch_loop ?E ?a ?w ?c] =>
        let H := fresh "Hloop" in
        destruct (batch_loop_cases E a w c) as [? ?|? ?|? ? H];
        [| | destruct H]
    | |- context [_exec_after_batch ?E ?a ?w ?l] =>
        destruct (after_batch_cases E a w l)
    end.

Lemma Path_eqb_refl (p : Path) : Path_eqb p p = true.
Proof. unfold Path_eqb. now destruct (list_eq_dec string_dec p p). Qed.

(** ** The invariant of the event loop *)

Ltac invariant_part1 Hsup :=
  let Hs := fresh "Hs" in
  intros Hs; simpl in Hs;
  first
    [ congruence
    | destruct (Hsup Hs) as (? & ? & ? & ?);
      repeat split; try congruence; try discriminate;
      intros; try discriminate; congruence ].

Ltac invariant_part3 Hdone :=
  let br := fresh "br" in
  let Hbr := fresh "Hbr" in
  intros br Hbr; simpl in Hbr |- *;
  first
    [ discriminate
    | apply Hdone; congruence
    | injection Hbr as <-; simpl; unfold output_file;
      rewrite ?Path_eqb_refl; repeat split; try reflexivity; lia ].

Ltac invariant_part4 Hsup Hret :=
  let o := fresh "o" in
  let Ho := fresh "Ho" in
  intros o Ho; simpl in Ho |- *;
  first
    [ destruct (Hret o Ho) as [?|(? & ? & ?)];
      [ left; assumption | first [ discriminate | congruence | right; repeat split; congruence ] ]
    | injection Ho as <-; left; eexists; repeat split; simpl; lia
    | injection Ho as <-; right;
      destruct (Hsup eq_refl) as (? & ? & ? & ?);
      repeat split; congruence ].

Lemma loop_invariant_step E a w ev :
  loop_invariant E a w -> loop_invariant E a (step E a w ev).
Proof.
  intros Hinv. pose proof Hinv as (Hsup & Htime & Hdone & Hret).
  destruct ev; step_cases; try exact Hinv; worker_cases;
    unfold loop_invariant, done_is_well_formed; simpl;
    try (cancel_frame w).
  all: (split; [|split; [|split]]).
  all: try (invariant_part1 Hsup).
  all: try (simpl in *; lia).
  all: try (invariant_part3 Hdone).
  all: try (invariant_part4 Hsup Hret).
Qed.

Lemma loop_invariant_start E a w :
  _start_time w <= clock w -> loop_invariant E a (_exec E a (create_task w)).
Proof.
  intros Htime. unfold _exec, _exec_batch.
  destruct (_executor_proxy E) as [f|];
    [destruct (f (batch_inputs a) (output_dir a) (run_id a))|];
    worker_cases; unfold loop_invariant, done_is_well_formed; simpl.
  all: (split; [|split; [|split]]).
  all: try (intros _; repeat split; try discriminate; intros; discriminate).
  all: try (simpl in *; lia).
  all: try (intros br Hbr; simpl in Hbr |- *;
            first [ discriminate
                  | injection Hbr as <-; simpl; unfold output_file;
                    rewrite ?Path_eqb_refl; repeat split; try reflexivity; lia ]).
  all: try (intros o Ho; discriminate).
Qed.

Lemma loop_invariant_steps E a evs w :
  loop_invariant E a w -> loop_invariant E a (fold_left (step E a) evs w).
Proof.
  revert w. induction evs as [|ev evs IH]; intros w H; simpl; [exact H|].
  now apply IH, loop_invariant_step.
Qed.

(** ** Tasks and their results *)

Lemma log_results_app l1 l2 :
  log_results (l1 ++ l2) = log_results l1 ++ log_results l2.
Proof.
  induction l1 as [|[i [r|e]] l1 IH]; simpl; [reflexivity| |]; now rewrite ?IH.
Qed.

Lemma complete_task_length i o p p' :
  complete_task i o p = Some p' -> List.length p' = List.length p.
Proof.
  revert p'. induction p as [|[j t] p IH]; intros p' H; simpl in H; [discriminate|].
  destruct (Nat.eqb i j).
  - destruct t; [injection H as <-; reflexivity | discriminate].
  - destruct (complete_task i o p) as [q|]; simpl in H; [|discriminate].
    injection H as <-. simpl. now rewrite (IH q).
Qed.

Lemma complete_task_nil i o p : complete_task i o p = Some [] -> False.
Proof.
  intros H. destruct p as [|t p]; [discriminate|].
  apply complete_task_length in H. simpl in H. lia.
Qed.

Lemma complete_task_running i o p p' :
  complete_task i o p = Some p' ->
  List.length (filter is_running p) = S (List.length (filter is_running p')).
Proof.
  revert p'. induction p as [|[j t] p IH]; intros p' H; simpl in H; [discriminate|].
  destruct (Nat.eqb i j).
  - destruct t; [injection H as <-; reflexivity | discriminate].
  - destruct (complete_task i o p) as [q|]; simpl in H; [|discriminate].
    injection H as <-. specialize (IH q eq_refl).
    destruct t; cbn [filter is_running snd List.length] in *; lia.
Qed.

Lemma complete_task_done_results i o p p' :
  complete_task i o p = Some p' ->
  Permutation (done_results p')
              (match o with Ret r => [r] | Raise _ => [] end ++ done_results p).
Proof.
  revert p'. induction p as [|[j t] p IH]; intros p' H; simpl in H; [discriminate|].
  destruct (Nat.eqb i j).
  - destruct t; [|discriminate]. injection H as <-. simpl.
    destruct o; simpl; apply Permutation_refl.
  - destruct (complete_task i o p) as [q|]; simpl in H; [|discriminate].
    injection H as <-. specialize (IH q eq_refl). simpl.
    destruct t as [|[r|e]]; try exact IH.
    apply perm_trans with (r :: (match o with Ret r0 => [r0] | Raise _ => [] end
                                   ++ done_results p)).
    + now apply perm_skip.
    + apply Permutation_middle.
Qed.

Lemma complete_task_In i o p p' j o' :
  complete_task i o p = Some p' ->
  In (j, Finished o') p' -> In (j, Finished o') p \/ (j = i /\ o' = o).
Proof.
  revert p'. induction p as [|[k t] p IH]; intros p' H Hin; simpl in H; [discriminate|].
  destruct (Nat.eqb_spec i k) as [->|Hne].
  - destruct t; [|discriminate]. injection H as <-.
    destruct Hin as [Heq|Hin]; [injection Heq as -> ->; now right|].
    left. now right.
  - destruct (complete_task i o p) as [q|]; simpl in H; [|discriminate].
    injection H as <-. destruct Hin as [Heq|Hin].
    + left. left. exact Heq.
    + destruct (IH q eq_refl Hin) as [?|?]; [left; now right | now right].
Qed.

Lemma filter_done_running_length (p : list (nat * LineTask)) :
  List.length (filter is_done p) + List.length (filter is_running p)
  = List.length p.
Proof.
  induction p as [|[j [|o]] p IH]; [reflexivity| |];
    cbn [filter is_done is_running snd negb List.length] in *; lia.
Qed.

Lemma done_results_running (p : list (nat * LineTask)) :
  done_results (filter is_running p) = [].
Proof.
  induction p as [|[j [|o]] p IH]; simpl; auto.
Qed.

Lemma results_of_done (p : list (nat * LineTask)) (rs : list LineResult) :
  map_outcome task_result (filter is_done p) = Ret rs ->
  rs = done_results p /\ List.length rs = List.length (filter is_done p).
Proof.
  revert rs. induction p as [|[j [|[r|e]]] p IH]; intros rs H; simpl in *.
  - injection H as <-. now split.
  - now apply IH.
  - destruct (map_outcome task_result (filter is_done p)) as [ys|e]; simpl in H;
      [|discriminate].
    injection H as <-. destruct (IH ys eq_refl) as [-> Hl]. simpl. now rewrite Hl.
  - discriminate.
Qed.

Lemma raise_of_done (p : list (nat * LineTask)) (e : PyExc) :
  map_outcome task_result (filter is_done p) = Raise e ->
  exists i, In (i, Finished (Raise e)) p.
Proof.
  induction p as [|[j [|[r|e']]] p IH]; intros H; simpl in *.
  - discriminate.
  - destruct (IH H) as [i Hi]. exists i. now right.
  - destruct (map_outcome task_result (filter is_done p)) as [ys|e2]; simpl in H;
      [discriminate|].
    injection H as ->. destruct (IH eq_refl) as [i Hi]. exists i. now right.
  - injection H as ->.
    exists j. now left.
Qed.

(** ** The invariant of the line scheduler *)

Lemma step_done_absorbing E a w ev o :
  exec_pc w = Done o -> exec_pc (step E a w ev) = Done o.
Proof.
  intros Hpc. destruct ev; step_cases; try assumption; try congruence.
  cancel_frame w. assumption.
Qed.

Lemma step_must_cancel E a w ev o :
  supervisor w = Some o -> must_cancel w = false ->
  must_cancel (step E a w ev) = false.
Proof.
  intros Hs Hm. destruct ev; step_cases; try assumption; try congruence;
    frames; congruence.
Qed.

(** The one step by which the supervisor gets its result. *)
Lemma supervisor_returns E a w ev o :
  supervisor w = None -> supervisor (step E a w ev) = Some o ->
  ev = EvSleepDone
  /\ ((_is_canceled w = true
       /\ o = Ret (Some (BatchResult_create (_start_time w) (utcnow w)
                           (_line_results w) (_aggr_results w) (Some Canceled))))
      \/ (_is_canceled w = false /\ exec_pc w = Done o)).
Proof.
  intros Hs. destruct ev; step_cases; try (frames; intros; congruence);
    intros Ho.
  - split; [reflexivity|]. left. split; [reflexivity|].
    cancel_frame w. unfold utcnow in Ho.
    repeat match goal with
           | H : _ (task_cancel w) = _ |- _ => rewrite !H in Ho
           end.
    congruence.
  - split; [reflexivity|]. right. split; congruence.
Qed.

Lemma after_batch_lines_invariant E a w L w' :
  AfterBatch E a w L w' ->
  List.length L = List.length (batch_inputs a) ->
  Sorted index_le L ->
  Permutation L (log_results (executor_log w)) ->
  pending w = [] ->
  lines_invariant a w'.
Proof.
  intros HAB Hlen Hsorted Hperm Hpend.
  assert (Hc : forall w1, _line_results w1 = L -> executor_log w1 = executor_log w ->
                          pending w1 = [] -> lines_complete a w1).
  { intros w1 H1 H2 H3. unfold lines_complete. rewrite H1, H2, H3. auto. }
  destruct HAB as [e Hf|u e Hf Hb|u r Hf Hb|u c1 c2 Hf Hb];
    unfold lines_invariant; simpl; rewrite Hpend; simpl.
  - split; [lia|]. right. split; [now apply Hc|].
    unfold line_failures. simpl. intros e'. rewrite Hf. congruence.
  - split; [lia|]. right. split; [now apply Hc|].
    unfold line_failures. simpl. intros e'. rewrite Hf. discriminate.
  - split; [lia|]. right. split; [now apply Hc|].
    unfold line_failures. simpl. intros e'. rewrite Hf. discriminate.
  - split; [lia|]. split; [now apply Hc|].
    unfold line_failures. simpl. rewrite Hf. now destruct u.
Qed.

Lemma lines_complete_no_task a w i o p :
  lines_complete a w -> complete_task i o (pending w) = Some p -> False.
Proof.
  intros (_ & _ & _ & Hp) H. rewrite Hp in H. discriminate.
Qed.

Ltac fold_done :=
  match goal with
  | H : bind (task_result ?p) _ = ?r, Hl : filter is_done _ = ?p :: ?l |- _ =>
      change (map_outcome task_result (p :: l) = r) in H; rewrite <- Hl in H
  end.

Lemma lines_invariant_step E a w ev :
  must_cancel w = false ->
  lines_invariant a w -> lines_invariant a (step E a w ev).
Proof.
  intros Hm Hinv. pose proof Hinv as (Hbound & Hpc).
  destruct ev; step_cases; try exact Hinv; try congruence.
  - (* a line is done *)
    rename Heqo0 into Hct.
    unfold lines_invariant; simpl.
    rewrite (complete_task_length _ _ _ _ Hct). split; [exact Hbound|].
    destruct (exec_pc w) as [| |c v| |o'].
    + contradiction.
    + contradiction.
    + destruct Hpc as (Hc & Hsum & Hne & Hperm & Hlog).
      repeat split; try assumption.
      * intros ->. now apply complete_task_nil in Hct.
      * rewrite log_results_app.
        pose proof (complete_task_done_results _ _ _ _ Hct) as Hd.
        eapply perm_trans; [apply Permutation_app_head, Hd|].
        destruct o as [r|e]; simpl.
        -- eapply perm_trans; [apply Permutation_sym, Permutation_middle|].
           eapply perm_trans; [apply perm_skip, Hperm|].
           apply Permutation_cons_append.
        -- now rewrite app_nil_r.
      * intros j o' Hin. simpl in Hin |- *.
        destruct (complete_task_In _ _ _ _ _ _ Hct Hin) as [Hold|[-> ->]].
        -- apply in_or_app. left. now apply Hlog.
        -- apply in_or_app. right. now left.
    + destruct Hpc as [Hc _]. exfalso. eapply lines_complete_no_task; eassumption.
    + destruct Hpc as [(j & e & Hin & ->)|[Hc _]].
      * left. exists j, e. split; [|reflexivity].
        apply in_or_app. now left.
      * exfalso. eapply lines_complete_no_task; eassumption.
  - (* the worker wakes up and collects *)
    simpl in Hpc. destruct Hpc as (Hc & Hsum & Hne & Hperm & Hlog).
    fold_done.
    destruct (results_of_done _ _ Heqo) as [-> Hlen].
    pose proof (filter_done_running_length (pending w)) as Hsplit.
    destruct (batch_loop_cases E a
                (with_line_results
                   (with_pending w (filter is_running (pending w)))
                   (_line_results w ++ done_results (pending w)))
                (List.length (_line_results w ++ done_results (pending w))))
      as [Hlt Hp|Hlt Hp|w' Hge HAB]; simpl in *.
    + rewrite Hp in Hsplit. simpl in Hsplit. rewrite length_app in Hlt. lia.
    + unfold lines_invariant; simpl. rewrite length_app.
      split; [lia|]. repeat split; try lia; try assumption.
      * rewrite done_results_running, app_nil_r. exact Hperm.
      * intros j o' Hin. simpl in Hin |- *.
        apply filter_In in Hin. now apply Hlog.
    + assert (Hrest : filter is_running (pending w) = []).
      { rewrite length_app in Hge.
        destruct (filter is_running (pending w)); [reflexivity|]. simpl in *. lia. }
      eapply after_batch_lines_invariant; [exact HAB| | | |]; simpl.
      * rewrite sorted_by_index_length, length_app. rewrite Hrest in Hsplit.
        simpl in Hsplit. lia.
      * apply sorted_by_index_sorted.
      * eapply perm_trans; [apply sorted_by_index_perm | exact Hperm].
      * exact Hrest.
  - (* the worker wakes up, and a task has raised *)
    simpl in Hpc. destruct Hpc as (Hc & Hsum & Hne & Hperm & Hlog).
    fold_done.
    destruct (raise_of_done _ _ Heqo) as [j Hj].
    unfold lines_invariant; simpl. split.
    + pose proof (filter_done_running_length (pending w)). lia.
    + left. exists j, e. split; [now apply Hlog | reflexivity].
  - (* the aggregation has returned *)
    simpl in Hpc. destruct Hpc as (Hc & Hf).
    unfold lines_invariant; simpl. split; [exact Hbound|].
    right. split; [exact Hc|]. unfold line_failures in *. simpl.
    intros e'. rewrite Hf. discriminate.
  - (* the aggregation has raised *)
    simpl in Hpc. destruct Hpc as (Hc & Hf).
    unfold lines_invariant; simpl. split; [exact Hbound|].
    right. split; [exact Hc|]. unfold line_failures in *. simpl.
    intros e'. rewrite Hf. discriminate.
  - (* the supervisor finds the flag set *)
    unfold lines_invariant, tasks_logged, lines_complete, line_failures in *.
    simpl. cancel_frame w. exact Hinv.
Qed.

Lemma scheduler_invariant_step E a w ev :
  loop_invariant E a w ->
  scheduler_invariant a w -> scheduler_invariant a (step E a w ev).
Proof.
  intros (Hsup & _ & _ & _) (Hnone & Hsome).
  destruct (supervisor w) as [o|] eqn:Hs.
  - pose proof (step_supervisor E a w ev o Hs) as Hs'.
    split; [congruence|]. intros o' Ho'. rewrite Hs' in Ho'. injection Ho' as <-.
    destruct (Hsome o eq_refl) as [Hc|(Hpc & Hm & Hl)]; [now left|].
    right. split; [|split].
    + now apply step_done_absorbing.
    + now apply (step_must_cancel E a w ev o).
    + now apply lines_invariant_step.
  - destruct (Hsup eq_refl) as (Hm & _).
    pose proof (lines_invariant_step E a w ev Hm (Hnone eq_refl)) as Hl.
    split; [intros _; exact Hl|].
    intros o Ho.
    destruct (supervisor_returns E a w ev o Hs Ho) as (-> & [(Hc & ->)|(Hc & Hpc)]).
    + left. eexists. split; [reflexivity|]. split; [reflexivity|].
      simpl. destruct (Hnone eq_refl) as (Hb & _). lia.
    + right. split; [|split].
      * now apply step_done_absorbing.
      * unfold step. rewrite Hs, Hc, Hpc. exact Hm.
      * exact Hl.
Qed.

Lemma scheduler_invariant_start E a w :
  _executor_proxy E = OtherExecutorProxy ->
  _line_results w = [] -> executor_log w = [] ->
  scheduler_invariant a (_exec E a (create_task w)).
Proof.
  intros HE Hlr Hlog. unfold _exec. rewrite HE. unfold _exec_batch.
  assert (Hlen : forall (l : list Dict),
             List.length (map (fun il : nat * Dict => (fst il, Running)) (enumerate l))
             = List.length l).
  { intros l. unfold enumerate.
    now rewrite length_map, length_combine, length_seq, Nat.min_id. }
  assert (Hrun : forall (l : list (nat * Dict)),
             done_results (map (fun il => (fst il, Running)) l) = []).
  { induction l; simpl; auto. }
  split; [intros _|].
  - match goal with
    | |- lines_invariant a (_exec_batch_loop ?E ?a ?w ?c) =>
        destruct (batch_loop_cases E a w c) as [Hlt Hp|Hlt Hp|w' Hge HAB]
    end; simpl in *.
    + apply (f_equal (@List.length _)) in Hp. rewrite Hlen in Hp. simpl in Hp. lia.
    + unfold lines_invariant, tasks_logged; simpl.
      rewrite Hlr, Hlog, Hlen, Hrun. simpl.
      repeat split; try lia; try assumption; try constructor.
      intros i o Hin. apply in_map_iff in Hin.
      destruct Hin as (x & Hx & _). discriminate.
    + assert (HN : batch_inputs a = []).
      { destruct (batch_inputs a); [reflexivity|simpl in Hge; lia]. }
      rewrite Hlr in HAB. simpl in HAB.
      eapply after_batch_lines_invariant; [exact HAB| | | |]; simpl.
      * now rewrite HN.
      * constructor.
      * rewrite Hlog. constructor.
      * now rewrite HN.
  - intros o Ho. exfalso. revert Ho.
    frames. simpl in *. congruence.
Qed.

Lemma scheduler_invariant_steps E a evs w :
  loop_invariant E a w -> scheduler_invariant a w ->
  scheduler_invariant a (fold_left (step E a) evs w).
Proof.
  revert w. induction evs as [|ev evs IH]; intros w Hl Hs; simpl; [exact Hs|].
  apply IH; [now apply loop_invariant_step | now apply scheduler_invariant_step].
Qed.

(** ** [run] and its event loop *)

Lemma exec_destroy_calls E a w :
  destroy_calls (_exec E a (create_task w)) = destroy_calls w.
Proof.
  unfold _exec, _exec_batch.
  destruct (_executor_proxy E) as [f|];
    [destruct (f (batch_inputs a) (output_dir a) (run_id a))|];
    simpl; try reflexivity; frames; simpl in *; congruence.
Qed.

Lemma exec_start_time E a w :
  _start_time (_exec E a (create_task w)) = _start_time w
  /\ clock (_exec E a (create_task w)) = clock w.
Proof.
  unfold _exec, _exec_batch.
  destruct (_executor_proxy E) as [f|];
    [destruct (f (batch_inputs a) (output_dir a) (run_id a))|];
    simpl; try (split; reflexivity); frames; simpl in *; split; congruence.
Qed.

(** What a run that returns has gone through. *)
Lemma run_inversion E w processed dir rid flag evs w' o :
  run E w processed dir rid flag evs = Some (w', o) ->
  (exists e, processed = Raise e
             /\ w' = destroy (with_start_time w (utcnow w))
             /\ o = run_handle (Raise e))
  \/ (exists inputs_ o1,
         processed = Ret inputs_
         /\ supervisor (_exec_in_task E (exec_args E inputs_ rid dir flag)
                          (with_start_time w (utcnow w)) evs) = Some o1
         /\ w' = destroy (_exec_in_task E (exec_args E inputs_ rid dir flag)
                            (with_start_time w (utcnow w)) evs)
         /\ o = run_handle o1).
Proof.
  unfold run. destruct processed as [inputs_|e].
  - destruct (supervisor _) as [o1|] eqn:Hs; [|discriminate].
    intros H. injection H as <- <-. right. exists inputs_, o1. auto.
  - intros H. injection H as <- <-. left. exists e. auto.
Qed.

Lemma exec_in_task_loop_invariant E a w evs :
  loop_invariant E a (_exec_in_task E a (with_start_time w (utcnow w)) evs).
Proof.
  unfold _exec_in_task. apply loop_invariant_steps, loop_invariant_start.
  simpl. unfold utcnow. lia.
Qed.

Lemma exec_in_task_scheduler_invariant E a now evs :
  _executor_proxy E = OtherExecutorProxy ->
  scheduler_invariant a
    (_exec_in_task E a
       (with_start_time (BatchEngine_init now) (utcnow (BatchEngine_init now)))
       evs).
Proof.
  intros HE. unfold _exec_in_task. apply scheduler_invariant_steps.
  - apply loop_invariant_start. simpl. lia.
  - now apply scheduler_invariant_start.
Qed.

Lemma run_handle_classified {A : Type} (o : Outcome A) (e : PyExc) :
  run_handle o = Raise e -> exc_is_promptflow e = true.
Proof.
  destruct o as [r|e0]; simpl; [discriminate|].
  destruct (exc_is_promptflow e0) eqn:Hpf; intros H; injection H as <-;
    [exact Hpf | reflexivity].
Qed.

Lemma unexpected_error_contains before after e :
  contains (exc_message (UnexpectedError before after e)) (exc_class_name e)
  /\ contains (exc_message (UnexpectedError before after e)) (exc_message e).
Proof.
  unfold UnexpectedError, error_type_and_message. simpl. split.
  - exists (before +++ "("), (") " +++ exc_message e +++ after).
    now rewrite !append_assoc.
  - exists (before +++ "(" +++ exc_class_name e +++ ") "), after.
    now rewrite !append_assoc.
Qed.

(** ** Line results only grow, lines in flight only shrink *)

Lemma after_batch_line_results E a w lrs :
  _line_results (_exec_after_batch E a w lrs) = lrs.
Proof. destruct (after_batch_cases E a w lrs); reflexivity. Qed.

Lemma step_line_results_incl E a w ev :
  incl (_line_results w) (_line_results (step E a w ev)).
Proof.
  destruct ev; step_cases; try apply incl_refl.
  - match goal with
    | |- incl _ (_line_results (_exec_batch_loop ?E ?a ?w1 ?c)) =>
        destruct (batch_loop_cases E a w1 c) as [? ?|? ?|w' ? HAB]
    end; simpl; try (apply incl_appl, incl_refl).
    assert (Hlr : _line_results w' = sorted_by_index (_line_results w ++ a0)).
    { destruct HAB; reflexivity. }
    rewrite Hlr. intros r Hr. apply sorted_by_index_In, in_or_app. now left.
  - cancel_frame w. apply incl_refl.
  - rewrite after_batch_line_results. intros r Hr. now apply sorted_by_index_In.
  - rewrite after_batch_line_results. intros r Hr. now apply sorted_by_index_In.
Qed.

Lemma steps_line_results_incl E a evs w :
  incl (_line_results w) (_line_results (fold_left (step E a) evs w)).
Proof.
  revert w. induction evs as [|ev evs IH]; intros w; simpl; [apply incl_refl|].
  eapply incl_tran; [apply step_line_results_incl | apply IH].
Qed.

Lemma filter_running_idempotent (p : list (nat * LineTask)) :
  filter is_running (filter is_running p) = filter is_running p.
Proof.
  induction p as [|t p IH]; simpl; [reflexivity|].
  destruct (is_running t) eqn:Ht; simpl; [rewrite Ht, IH|]; auto.
Qed.

Lemma step_in_flight E a w ev : in_flight (step E a w ev) <= in_flight w.
Proof.
  unfold in_flight.
  destruct ev; step_cases; try lia; frames; simpl in *;
    repeat match goal with
      | H : pending _ = _ |- _ => rewrite H
      end;
    rewrite ?filter_running_idempotent; try lia.
  - match goal with
    | H : complete_task _ _ _ = Some _ |- _ =>
        apply complete_task_running in H; lia
    end.
  - cancel_frame w. lia.
Qed.

Lemma steps_in_flight E a evs w :
  in_flight (fold_left (step E a) evs w) <= in_flight w.
Proof.
  revert w. induction evs as [|ev evs IH]; intros w; simpl; [lia|].
  pose proof (step_in_flight E a w ev). pose proof (IH (step E a w ev)). lia.
Qed.

(** ** A run whose lines are done returns *)

Lemma handle_line_failures_false (l : list RunInfo) :
  handle_line_failures l false = Ret tt.
Proof.
  unfold handle_line_failures.
  now destruct (filter (fun r => Status_eqb (status r) Failed) l).
Qed.


Lemma log_results_In (l : list (nat * Outcome LineResult)) (r : LineResult) :
  In r (log_results l) <-> exists i, In (i, Ret r) l.
Proof.
  induction l as [|[j [r'|e]] l IH]; simpl.
  - split; [contradiction | intros [i []]].
  - split.
    + intros [->|Hin]; [exists j; now left|].
      apply IH in Hin. destruct Hin as [i Hi]. exists i. now right.
    + intros [i [Heq|Hin]]; [injection Heq as _ ->; now left|].
      right. apply IH. now exists i.
  - split.
    + intros Hin. apply IH in Hin. destruct Hin as [i Hi]. exists i. now right.
    + intros [i [Heq|Hin]]; [discriminate|]. apply IH. now exists i.
Qed.










Lemma sleep_done_returns E a w o :
  supervisor w = None -> _is_canceled w = false -> exec_pc w = Done o ->
  supervisor (step E a w EvSleepDone) = Some o.
Proof. intros Hs Hc Hpc. unfold step. now rewrite Hs, Hc, Hpc. Qed.


Lemma aggregation_begin_without_nodes E inputs_ lrs :
  aggregation_nodes (_flow E) = [] ->
  _exec_aggregation_begin E inputs_ lrs = Ret (ReturnsAtOnce empty_AggregationResult).
Proof. intros H. unfold _exec_aggregation_begin. now rewrite H. Qed.

Lemma step_aggregation_calls E a w ev :
  aggregation_nodes (_flow E) = [] ->
  aggregation_calls (step E a w ev) = aggregation_calls w.
Proof.
  intros Hn. destruct ev; step_cases; try reflexivity; worker_cases; simpl;
    try reflexivity;
    try (rewrite aggregation_begin_without_nodes in * by assumption; discriminate).
  now cancel_frame w.
Qed.

Lemma exec_aggregation_calls E a w :
  aggregation_nodes (_flow E) = [] ->
  aggregation_calls (_exec E a (create_task w)) = aggregation_calls w.
Proof.
  intros Hn. unfold _exec, _exec_batch.
  destruct (_executor_proxy E) as [f|];
    [destruct (f (batch_inputs a) (output_dir a) (run_id a))|];
    worker_cases; simpl; try reflexivity;
    rewrite aggregation_begin_without_nodes in * by assumption; discriminate.
Qed.

Lemma exec_in_task_aggregation_calls E a w evs :
  aggregation_nodes (_flow E) = [] ->
  aggregation_calls (_exec_in_task E a w evs) = aggregation_calls w.
Proof.
  intros Hn. unfold _exec_in_task.
  transitivity (aggregation_calls (_exec E a (create_task w))).
  - generalize (_exec E a (create_task w)). induction evs as [|ev evs IH];
      intros w1; simpl; [reflexivity|].
    now rewrite IH, step_aggregation_calls.
  - now apply exec_aggregation_calls.
Qed.

(** ** Dictionaries *)

Lemma dict_get_set k k' v d :
  dict_get k (dict_set k' v d) = if String.eqb k k' then Some v else dict_get k d.
Proof.
  induction d as [|[k2 v2] d IH]; simpl.
  - reflexivity.
  - destruct (String.eqb_spec k' k2) as [->|Hne]; simpl.
    + destruct (String.eqb k k2); reflexivity.
    + rewrite IH. destruct (String.eqb_spec k k2) as [->|Hne2].
      * destruct (String.eqb_spec k2 k'); [congruence|reflexivity].
      * reflexivity.
Qed.

Lemma dict_get_absent k d : ~ In k (map fst d) -> dict_get k d = None.
Proof.
  induction d as [|[k2 v2] d IH]; simpl; intros H; [reflexivity|].
  destruct (String.eqb_spec k k2) as [->|Hne]; [tauto|]. apply IH. tauto.
Qed.

Lemma dict_get_update k d1 d2 :
  NoDup (map fst d2) ->
  dict_get k (dict_update d1 d2)
  = match dict_get k d2 with Some v => Some v | None => dict_get k d1 end.
Proof.
  unfold dict_update. revert d1.
  induction d2 as [|[k2 v2] d2 IH]; intros d1 Hnd; simpl; [reflexivity|].
  inversion Hnd as [|? ? Hnotin Hnd']; subst.
  rewrite IH by assumption. simpl. rewrite dict_get_set.
  destruct (String.eqb_spec k k2) as [->|Hne].
  - now rewrite dict_get_absent.
  - reflexivity.
Qed.

(** ** Lines in flight *)

(** The line scheduler starts all lines at once, whatever their number. *)
Lemma all_lines_in_flight E a w :
  _executor_proxy E = OtherExecutorProxy ->
  in_flight (_exec E a (create_task w)) = List.length (batch_inputs a).
Proof.
  intros HE. unfold _exec, _exec_batch. rewrite HE. unfold in_flight.
  frames. simpl in *.
  match goal with H : pending _ = _ |- _ => rewrite H end.
  assert (Hrun : forall l : list (nat * Dict),
             List.length (filter is_running (map (fun il => (fst il, Running)) l))
             = List.length l).
  { induction l as [|x l IH]; simpl; [reflexivity | now rewrite IH]. }
  rewrite Hrun. unfold enumerate.
  now rewrite length_combine, length_seq, Nat.min_id.
Qed.

(** ** The columns of the aggregation when the line results are complete *)






(** ** Runs of a fresh engine on the line scheduler *)

Lemma run_world_app E w inputs_ dir rid flag evs1 evs2 :
  run_world E w inputs_ dir rid flag (evs1 ++ evs2)
  = fold_left (step E (exec_args E inputs_ rid dir flag)) evs2
              (run_world E w inputs_ dir rid flag evs1).
Proof. unfold run_world, _exec_in_task. apply fold_left_app. Qed.

Lemma run_of_world E w inputs_ dir rid flag evs o1 :
  supervisor (run_world E w inputs_ dir rid flag evs) = Some o1 ->
  run E w (Ret inputs_) dir rid flag evs
  = Some (destroy (run_world E w inputs_ dir rid flag evs), run_handle o1).
Proof.
  unfold run, run_world, started. intros H. now rewrite H.
Qed.

Lemma world_of_run E w inputs_ dir rid flag evs w' br :
  run E w (Ret inputs_) dir rid flag evs = Some (w', Ret (Some br)) ->
  supervisor (run_world E w inputs_ dir rid flag evs) = Some (Ret (Some br))
  /\ w' = destroy (run_world E w inputs_ dir rid flag evs).
Proof.
  intros Hrun.
  destruct (run_inversion _ _ _ _ _ _ _ _ _ Hrun)
    as [(e & He & _)|(inputs' & o1 & Hi & Hs & -> & Ho)]; [discriminate|].
  injection Hi as <-.
  assert (o1 = Ret (Some br)) as ->.
  { destruct o1 as [r|e]; simpl in Ho;
      [congruence | destruct (exc_is_promptflow e); discriminate]. }
  now split.
Qed.

Lemma fresh_run_invariants E now inputs_ dir rid flag evs :
  _executor_proxy E = OtherExecutorProxy ->
  loop_invariant E (exec_args E inputs_ rid dir flag)
                 (run_world E (BatchEngine_init now) inputs_ dir rid flag evs)
  /\ scheduler_invariant (exec_args E inputs_ rid dir flag)
                         (run_world E (BatchEngine_init now) inputs_ dir rid flag evs).
Proof.
  intros HE. unfold run_world, started. split.
  - apply exec_in_task_loop_invariant.
  - now apply exec_in_task_scheduler_invariant.
Qed.

(** The summary of a run that was not canceled is the worker's. *)
Lemma summary_of_completed_run E a w br :
  loop_invariant E a w -> scheduler_invariant a w ->
  supervisor w = Some (Ret (Some br)) -> br_status br <> Canceled ->
  lines_complete a w /\ line_results br = _line_results w
  /\ br_status br = Completed.
Proof.
  intros (_ & _ & Hwf & _) (_ & Hsome) Hs Hst.
  destruct (Hsome _ Hs) as [(br' & Hbr & Hc & _)|(Hpc & _ & _ & Hl)].
  - injection Hbr as <-. contradiction.
  - rewrite Hpc in Hl.
    destruct Hl as [(i & e & _ & He)|(Hc & _)]; [discriminate|].
    destruct (Hwf br Hpc) as (Hcomp & Hlr & _). auto.
Qed.

Lemma exec_args_batch_inputs E inputs_ rid dir flag :
  List.length (batch_inputs (exec_args E inputs_ rid dir flag))
  = List.length inputs_.
Proof. simpl. apply length_map. Qed.





(** ** Cancellation *)

Lemma sleep_done_canceled E a w :
  supervisor w = None -> _is_canceled w = true ->
  supervisor (step E a w EvSleepDone)
  = Some (Ret (Some (BatchResult_create (_start_time w) (utcnow w)
                       (_line_results w) (_aggr_results w) (Some Canceled))))
  /\ pending (step E a w EvSleepDone) = pending w.
Proof.
  intros Hs Hc. unfold step. rewrite Hs, Hc. simpl.
  cancel_frame w. now split.
Qed.

(** ** Line failures *)



(** ** A run that fails on a line *)






(** ** Errors on their way to the caller of [run] *)

(** The executor's aggregation raises while the worker waits for it: at the
    supervisor's next poll the supervisor returns by raising what the
    handler of [_exec_aggregation] makes of the error. *)
Lemma aggregation_error_returns E a w e :
  must_cancel w = false -> supervisor w = None -> _is_canceled w = false ->
  exec_pc w = AwaitAggregation ->
  exists e1,
    _exec_aggregation_handle (Raise e) = Raise e1
    /\ exc_is_promptflow e1 = true
    /\ supervisor (fold_left (step E a)
                     [EvAggregationDone (Raise e); EvSleepDone] w)
       = Some (Raise e1).
Proof.
  intros Hm Hs Hc Hpc.
  assert (He1 : exists e1, _exec_aggregation_handle (Raise e) = Raise e1
                           /\ exc_is_promptflow e1 = true).
  { unfold _exec_aggregation_handle.
    destruct (exc_is_promptflow e) eqn:Hpf; eexists; split;
      try reflexivity; exact Hpf. }
  destruct He1 as (e1 & He1 & Hpf1). exists e1.
  split; [exact He1|]. split; [exact Hpf1|].
  cbn [fold_left].
  assert (Hstep : step E a w (EvAggregationDone (Raise e)) = finish w (Raise e1)).
  { unfold step. now rewrite Hpc, Hm, He1. }
  rewrite Hstep. apply sleep_done_returns; assumption || reflexivity.
Qed.

(** What [run] raises is what its handler makes of the error of the input
    processing or of the error the worker ended with. *)
Lemma run_raises_inv E w processed dir rid flag evs w' e' :
  run E w processed dir rid flag evs = Some (w', Raise e') ->
  exists e,
    (processed = Raise e \/ exec_pc w' = Done (Raise e))
    /\ run_handle (A := option BatchResult) (Raise e) = Raise e'.
Proof.
  intros Hrun.
  destruct (run_inversion _ _ _ _ _ _ _ _ _ Hrun)
    as [(e & -> & _ & Ho)|(inputs_ & o1 & _ & Hs & -> & Ho)].
  - exists e. split; [now left | now symmetry].
  - destruct o1 as [r|e]; [discriminate|].
    exists e. split; [|now symmetry]. right.
    pose proof (exec_in_task_loop_invariant E
                  (exec_args E inputs_ rid dir flag) w evs)
      as (_ & _ & _ & Hret).
    destruct (Hret _ Hs) as [(br & Hbr & _)|(Hpc & _)]; [discriminate|].
    exact Hpc.
Qed.

(** * The claims *)

(** C1.  With seventeen lines on an executor that offers only
    [exec_line_async], all seventeen calls are in flight as soon as the
    worker reaches its first [await], one more than [DEFAULT_CONCURRENCY];
    the semaphore of the first round has given out a single unit, to the
    worker itself. *)
Theorem C1_seventeen_lines_in_flight :
  let w := _exec_in_task engine_without_aggregation
             (exec_args engine_without_aggregation seventeen_inputs None
                        ["out"] false)
             (BatchEngine_init 0) [] in
  in_flight w = 17
  /\ DEFAULT_CONCURRENCY = 16
  /\ exec_pc w = AwaitWait 0 15.
Proof. vm_compute. repeat split. Qed.




(** C3.  Three lines on a flow with an aggregation node; line 2 is the only
    one collected, with status [Completed], when the run is canceled.  The
    worker gets the cancellation in [_exec_batch], leaves the loop and goes
    on to the aggregation: the executor is called with the input of line 0
    (["a"]), a line that has not completed, next to the aggregation input of
    line 2. *)
Theorem C3_aggregation_after_cancel :
  exists w br,
    run engine_with_aggregation (BatchEngine_init 0) (Ret three_inputs)
        ["out"] None false cancel_mid_run_events
    = Some (w, Ret (Some br))
    /\ br_status br = Canceled
    /\ line_results br = [line_result 2 Completed "C"]
    /\ in_flight w = 2
    /\ aggregation_calls w
       = [([("q", [Some (VStr "a")])], [("acc", [Some (VInt 2)])], "5f0c")]
    /\ nth_error three_inputs 2 = Some [("q", VStr "c")].
Proof.
  eexists. eexists.
  split; [vm_compute; reflexivity|].
  repeat split.
Qed.

(** C4, as the code has it.  On a fresh engine with an executor that offers
    only [exec_line_async]: let [cancel()] be called after the events
    [evs1], and let the supervisor not have polled during the events [evs2]
    that follow.  Then at the end of its sleep the supervisor returns,
    whatever the worker and the lines are doing: [run] comes back with a
    summary of status [Canceled], made of the line results recorded at that
    moment; these include every line result that was recorded when
    [cancel()] was called and are at most as many as the input lines; the
    end time is not before the start time; and from the call of [cancel()]
    on the number of lines in flight never grows, whatever happens later. *)
Theorem C4_cancel_returns_partial_summary :
  forall E now inputs_ dir rid flag evs1 evs2,
    _executor_proxy E = OtherExecutorProxy ->
    supervisor (run_world E (BatchEngine_init now) inputs_ dir rid flag
                          (evs1 ++ EvCancel :: evs2)) = None ->
    exists w br,
      run E (BatchEngine_init now) (Ret inputs_) dir rid flag
          ((evs1 ++ EvCancel :: evs2) ++ [EvSleepDone])
      = Some (w, Ret (Some br))
      /\ br_status br = Canceled
      /\ line_results br
         = _line_results (run_world E (BatchEngine_init now) inputs_ dir rid flag
                                    (evs1 ++ EvCancel :: evs2))
      /\ incl (_line_results (run_world E (BatchEngine_init now) inputs_ dir
                                        rid flag evs1))
              (line_results br)
      /\ List.length (line_results br) <= List.length inputs_
      /\ start_time br <= end_time br
      /\ forall evs3,
           in_flight (run_world E (BatchEngine_init now) inputs_ dir rid flag
                                (((evs1 ++ EvCancel :: evs2) ++ [EvSleepDone])
                                   ++ evs3))
           <= in_flight (run_world E (BatchEngine_init now) inputs_ dir rid flag
                                   evs1).
Proof.
  intros E now inputs_ dir rid flag evs1 evs2 HE Hs.
  set (a := exec_args E inputs_ rid dir flag) in *.
  set (w1 := run_world E (BatchEngine_init now) inputs_ dir rid flag evs1) in *.
  set (w2 := run_world E (BatchEngine_init now) inputs_ dir rid flag
                       (evs1 ++ EvCancel :: evs2)) in *.
  assert (Hw2 : w2 = fold_left (step E a) evs2 (cancel w1)).
  { unfold w2. rewrite run_world_app. reflexivity. }
  assert (Hc : _is_canceled w2 = true).
  { rewrite Hw2. now apply steps_is_canceled. }
  destruct (fresh_run_invariants E now inputs_ dir rid flag
              (evs1 ++ EvCancel :: evs2) HE) as [Hloop [Hnone _]].
  fold a in Hloop, Hnone. fold w2 in Hloop, Hnone.
  destruct (sleep_done_canceled E a w2 Hs Hc) as [Hret Hpend].
  assert (Hw3 : run_world E (BatchEngine_init now) inputs_ dir rid flag
                          ((evs1 ++ EvCancel :: evs2) ++ [EvSleepDone])
                = step E a w2 EvSleepDone).
  { rewrite run_world_app. reflexivity. }
  eexists. eexists. split.
  { rewrite <- Hw3 in Hret. rewrite (run_of_world _ _ _ _ _ _ _ _ Hret).
    reflexivity. }
  simpl. split; [reflexivity|]. split; [reflexivity|]. split; [|split; [|split]].
  - rewrite Hw2. eapply incl_tran; [|apply steps_line_results_incl].
    apply incl_refl.
  - destruct (Hnone Hs) as [Hb _]. unfold a in Hb.
    rewrite exec_args_batch_inputs in Hb. lia.
  - destruct Hloop as (_ & Ht & _). exact Ht.
  - intros evs3. rewrite run_world_app, Hw3. fold a.
    eapply Nat.le_trans; [apply steps_in_flight|].
    eapply Nat.le_trans; [apply step_in_flight|].
    rewrite Hw2. eapply Nat.le_trans; [apply steps_in_flight|].
    apply Nat.le_refl.
Qed.

(** C4, as it is stated, fails: line 0 has ended, with status [Completed],
    before [cancel()] is called, but the worker has not been resumed to
    collect it when the supervisor's sleep ends; the summary of the canceled
    run has no line result. *)
Lemma C4_counterexample :
  exists w br,
    run engine_without_aggregation (BatchEngine_init 0) (Ret three_inputs)
        ["out"] None false
        [EvLineDone 0 (Ret (line_result 0 Completed "A")); EvCancel; EvSleepDone]
    = Some (w, Ret (Some br))
    /\ br_status br = Canceled
    /\ executor_log w = [(0, Ret (line_result 0 Completed "A"))]
    /\ line_results br = []
    /\ ~ In (line_result 0 Completed "A") (line_results br).
Proof.
  eexists. eexists. split; [vm_compute; reflexivity|].
  repeat split. intros [].
Qed.

(** A run of three lines canceled after line 2 has been collected. *)
Lemma C4_witness :
  exists w br,
    run engine_with_aggregation (BatchEngine_init 0) (Ret three_inputs)
        ["out"] None false
        (([EvLineDone 2 (Ret (line_result 2 Completed "C")); EvWaitWake]
            ++ EvCancel :: [EvClock 1]) ++ [EvSleepDone])
    = Some (w, Ret (Some br))
    /\ br_status br = Canceled
    /\ incl [line_result 2 Completed "C"] (line_results br)
    /\ List.length (line_results br) <= 3
    /\ start_time br <= end_time br.
Proof.
  destruct (C4_cancel_returns_partial_summary
              engine_with_aggregation 0 three_inputs ["out"] None false
              [EvLineDone 2 (Ret (line_result 2 Completed "C")); EvWaitWake]
              [EvClock 1])
    as (w & br & Hrun & Hst & _ & Hincl & Hlen & Htime & _).
  - reflexivity.
  - vm_compute. reflexivity.
  - exists w, br. repeat split; assumption.
Defined.




(** C6.  Whenever [run] comes back, by returning a summary (completed or
    canceled) or by raising, the executor's [destroy()] has been called
    exactly once more than before the run. *)
Theorem C6_destroy_called_exactly_once :
  forall E w processed dir rid flag evs w' o,
    run E w processed dir rid flag evs = Some (w', o) ->
    destroy_calls w' = S (destroy_calls w).
Proof.
  intros E w processed dir rid flag evs w' o Hrun.
  destruct (run_inversion _ _ _ _ _ _ _ _ _ Hrun)
    as [(e & _ & -> & _)|(inputs_ & o1 & _ & _ & -> & _)].
  - reflexivity.
  - simpl. unfold _exec_in_task.
    now rewrite steps_destroy_calls, exec_destroy_calls.
Qed.

(** A run that completes, a run whose input processing raises, a run that
    is canceled. *)
Lemma C6_witness :
  destroy_calls out_of_order_world = 1
  /\ destroy_calls bad_inputs_world = 1
  /\ destroy_calls canceled_world = 1.
Proof.
  split; [|split].
  - apply (C6_destroy_called_exactly_once
             engine_without_aggregation (BatchEngine_init 0) (Ret three_inputs)
             ["out"] None false out_of_order_events
             out_of_order_world (Ret (Some out_of_order_summary))).
    vm_compute. reflexivity.
  - apply (C6_destroy_called_exactly_once
             engine_with_aggregation (BatchEngine_init 0) (Raise bad_inputs_error)
             ["out"] None false [] bad_inputs_world (Raise bad_inputs_error)).
    vm_compute. reflexivity.
  - apply (C6_destroy_called_exactly_once
             engine_with_aggregation (BatchEngine_init 0) (Ret three_inputs)
             ["out"] None false cancel_mid_run_events
             canceled_world canceled_outcome).
    vm_compute. reflexivity.
Defined.

(** C7.  A [PromptflowException] raised by the executor's aggregation call
    or inside [run] goes on unchanged; any other exception is replaced by an
    [UnexpectedError] whose message holds the class name and the message of
    the original and whose cause is the original; the error of the
    aggregation passes the handler of [run] unchanged; and [run] comes back
    either with a run summary or with one classified error.  The errors
    reach the caller of [run]: when the executor's aggregation raises while
    the worker waits for it and nobody has canceled, [run] raises, at the
    supervisor's next poll, what the handler of [_exec_aggregation] makes of
    the error; when the input processing raises, or the worker has ended
    with an error and nobody has canceled, [run] raises what its own handler
    makes of that error; and whatever [run] raises is what its handler makes
    of the error of the input processing or of the error the worker ended
    with. *)
Theorem C7_errors_are_escalated_once :
  (forall e, exc_is_promptflow e = true ->
     _exec_aggregation_handle (Raise e) = Raise e
     /\ run_handle (A := option BatchResult) (Raise e) = Raise e)
  /\ (forall e, exc_is_promptflow e = false ->
        exists e1 e2,
          _exec_aggregation_handle (Raise e) = Raise e1
          /\ run_handle (A := option BatchResult) (Raise e) = Raise e2
          /\ exc_cause e1 = Some e /\ exc_cause e2 = Some e
          /\ exc_class_name e1 = "UnexpectedError"
          /\ exc_class_name e2 = "UnexpectedError"
          /\ contains (exc_message e1) (exc_class_name e)
          /\ contains (exc_message e1) (exc_message e)
          /\ contains (exc_message e2) (exc_class_name e)
          /\ contains (exc_message e2) (exc_message e))
  /\ (forall e e1, _exec_aggregation_handle (Raise e) = Raise e1 ->
        run_handle (A := option BatchResult) (Raise e1) = Raise e1)
  /\ (forall E w processed dir rid flag evs w' o,
        run E w processed dir rid flag evs = Some (w', o) ->
        (exists br, o = Ret (Some br))
        \/ (exists e, o = Raise e /\ exc_is_promptflow e = true))
  /\ (forall E w inputs_ dir rid flag evs e,
        supervisor (run_world E w inputs_ dir rid flag evs) = None ->
        _is_canceled (run_world E w inputs_ dir rid flag evs) = false ->
        exec_pc (run_world E w inputs_ dir rid flag evs) = AwaitAggregation ->
        exists w' e1,
          _exec_aggregation_handle (Raise e) = Raise e1
          /\ run E w (Ret inputs_) dir rid flag
                 (evs ++ [EvAggregationDone (Raise e); EvSleepDone])
             = Some (w', Raise e1))
  /\ (forall E w dir rid flag evs e,
        exists w',
          run E w (Raise e) dir rid flag evs = Some (w', run_handle (Raise e)))
  /\ (forall E w inputs_ dir rid flag evs e,
        supervisor (run_world E w inputs_ dir rid flag evs) = None ->
        _is_canceled (run_world E w inputs_ dir rid flag evs) = false ->
        exec_pc (run_world E w inputs_ dir rid flag evs) = Done (Raise e) ->
        exists w',
          run E w (Ret inputs_) dir rid flag (evs ++ [EvSleepDone])
          = Some (w', run_handle (Raise e)))
  /\ (forall E w processed dir rid flag evs w' e',
        run E w processed dir rid flag evs = Some (w', Raise e') ->
        exists e,
          (processed = Raise e \/ exec_pc w' = Done (Raise e))
          /\ run_handle (A := option BatchResult) (Raise e) = Raise e').
Proof.
  split; [|split; [|split; [|split; [|split; [|split; [|split]]]]]].
  - intros e Hpf. unfold _exec_aggregation_handle, run_handle.
    now rewrite Hpf.
  - intros e Hpf.
    exists (aggregation_unexpected_error e), (run_unexpected_error e).
    unfold _exec_aggregation_handle, run_handle. rewrite Hpf.
    do 6 (split; [reflexivity|]).
    unfold aggregation_unexpected_error, run_unexpected_error.
    repeat split; apply unexpected_error_contains.
  - intros e e1. unfold _exec_aggregation_handle, run_handle.
    destruct (exc_is_promptflow e) eqn:Hpf; intros H; injection H as <-.
    + now rewrite Hpf.
    + reflexivity.
  - intros E w processed dir rid flag evs w' o Hrun.
    destruct (run_inversion _ _ _ _ _ _ _ _ _ Hrun)
      as [(e & _ & _ & ->)|(inputs_ & o1 & _ & Hs & _ & ->)].
    + right. destruct (run_handle (Raise e)) as [r|e'] eqn:Hh.
      * simpl in Hh. destruct (exc_is_promptflow e); discriminate.
      * exists e'. split; [reflexivity|]. eapply run_handle_classified, Hh.
    + pose proof (exec_in_task_loop_invariant E
                    (exec_args E inputs_ rid dir flag) w evs)
        as (_ & _ & _ & Hret).
      destruct o1 as [[br|]|e].
      * left. now exists br.
      * exfalso. destruct (Hret _ Hs) as [(br & Hbr & _)|(_ & _ & Hne)];
          [discriminate | now apply Hne].
      * right. destruct (run_handle (Raise e)) as [r|e'] eqn:Hh.
        -- simpl in Hh. destruct (exc_is_promptflow e); discriminate.
        -- exists e'. split; [reflexivity|]. eapply run_handle_classified, Hh.
  - intros E w inputs_ dir rid flag evs e Hs Hc Hpc.
    pose proof (exec_in_task_loop_invariant E
                  (exec_args E inputs_ rid dir flag) w evs) as (Hsup & _).
    destruct (Hsup Hs) as (Hm & _).
    destruct (aggregation_error_returns E (exec_args E inputs_ rid dir flag)
                (run_world E w inputs_ dir rid flag evs) e Hm Hs Hc Hpc)
      as (e1 & He1 & Hpf1 & Hret).
    rewrite <- run_world_app in Hret.
    eexists. exists e1. split; [exact He1|].
    rewrite (run_of_world _ _ _ _ _ _ _ _ Hret). simpl. now rewrite Hpf1.
  - intros E w dir rid flag evs e. eexists. reflexivity.
  - intros E w inputs_ dir rid flag evs e Hs Hc Hpc.
    pose proof (sleep_done_returns E (exec_args E inputs_ rid dir flag)
                  (run_world E w inputs_ dir rid flag evs) _ Hs Hc Hpc) as Hret.
    change (step E (exec_args E inputs_ rid dir flag)
                 (run_world E w inputs_ dir rid flag evs) EvSleepDone)
      with (fold_left (step E (exec_args E inputs_ rid dir flag)) [EvSleepDone]
                      (run_world E w inputs_ dir rid flag evs)) in Hret.
    rewrite <- run_world_app in Hret.
    eexists. now rewrite (run_of_world _ _ _ _ _ _ _ _ Hret).
  - intros E w processed dir rid flag evs w' e'. apply run_raises_inv.
Qed.

(** A classified error, a [KeyError], the outcome of the canceled run, and
    the run of the three lines in which the executor's aggregation raises a
    [KeyError]. *)
Lemma C7_witness :
  _exec_aggregation_handle (Raise bad_inputs_error) = Raise bad_inputs_error
  /\ (exists e1, _exec_aggregation_handle (Raise key_error) = Raise e1
                 /\ exc_cause e1 = Some key_error
                 /\ contains (exc_message e1) "KeyError"
                 /\ contains (exc_message e1) "acc")
  /\ ((exists br, canceled_outcome = Ret (Some br))
      \/ (exists e, canceled_outcome = Raise e /\ exc_is_promptflow e = true))
  /\ (exists w',
         run engine_with_aggregation (BatchEngine_init 0) (Ret three_inputs)
             ["out"] None false
             (lines_collected_events
                ++ [EvAggregationDone (Raise key_error); EvSleepDone])
         = Some (w', Raise (aggregation_unexpected_error key_error)))
  /\ (exists w',
         run engine_without_aggregation (BatchEngine_init 0) (Ret three_inputs)
             ["out"] None false (raising_prefix_events ++ [EvSleepDone])
         = Some (w', Raise (run_unexpected_error key_error))).
Proof.
  destruct C7_errors_are_escalated_once
    as (Hdomain & Hother & _ & Hrun & Haggr & _ & Hworker & _).
  split; [|split; [|split; [|split]]].
  - apply (Hdomain bad_inputs_error). reflexivity.
  - destruct (Hother key_error) as (e1 & e2 & H1 & _ & Hc & _ & _ & _ & Hn & Hm & _).
    + reflexivity.
    + exists e1. repeat split; assumption.
  - apply (Hrun engine_with_aggregation (BatchEngine_init 0) (Ret three_inputs)
                ["out"] None false cancel_mid_run_events canceled_world).
    vm_compute. reflexivity.
  - destruct (Haggr engine_with_aggregation (BatchEngine_init 0) three_inputs
                    ["out"] None false lines_collected_events key_error)
      as (w' & e1 & He1 & Hr); try reflexivity.
    exists w'. injection He1 as <-. exact Hr.
  - destruct (Hworker engine_without_aggregation (BatchEngine_init 0)
                      three_inputs ["out"] None false raising_prefix_events
                      key_error)
      as (w' & Hr); try reflexivity.
    exists w'. exact Hr.
Defined.

(** C8, as the code has it.  When a run returns a summary that is not
    canceled, the output file holds one record for each line result with
    status [Completed], in the order of the line results, and none for the
    others; a record holds every output field of its line, and under the
    line number key the line's index unless the output has a field of that
    name. *)
Theorem C8_output_file_of_completed_lines :
  forall E w processed dir rid flag evs w' br,
    run E w processed dir rid flag evs = Some (w', Ret (Some br)) ->
    br_status br <> Canceled ->
    read_file (resolve_dir_to_absolute (collab E) (_working_dir E) dir
                 ++ [OUTPUT_FILE_NAME]) (files w')
    = Some (map (output_record E) (filter is_completed (line_results br)))
    /\ forall r, NoDup (map fst (output r)) ->
         (forall k v, dict_get k (output r) = Some v ->
                      dict_get k (output_record E r) = Some v)
         /\ (dict_get (LINE_NUMBER_KEY (collab E)) (output r) = None ->
             dict_get (LINE_NUMBER_KEY (collab E)) (output_record E r)
             = Some (VInt (Z.of_nat (index (run_info r))))).
Proof.
  intros E w processed dir rid flag evs w' br Hrun Hst. split.
  - destruct (run_inversion _ _ _ _ _ _ _ _ _ Hrun)
      as [(e & _ & _ & Ho)|(inputs_ & o1 & _ & Hs & -> & Ho)].
    + unfold run_handle in Ho. destruct (exc_is_promptflow e); discriminate.
    + assert (o1 = Ret (Some br)) as ->.
      { destruct o1 as [r|e]; simpl in Ho;
          [congruence | destruct (exc_is_promptflow e); discriminate]. }
      pose proof (exec_in_task_loop_invariant E
                    (exec_args E inputs_ rid dir flag) w evs)
        as (_ & _ & Hdone & Hret).
      destruct (Hret _ Hs) as [(br' & Hbr & Hc & _)|(Hpc & _ & _)].
      * injection Hbr as <-. contradiction.
      * destruct (Hdone br Hpc) as (_ & Hlr & _ & _ & Hfile).
        simpl. rewrite Hlr. exact Hfile.
  - intros r Hnd. unfold output_record. split.
    + intros k v Hk. rewrite dict_get_update by assumption. now rewrite Hk.
    + intros Hk. rewrite dict_get_update by assumption. rewrite Hk. simpl.
      now rewrite String.eqb_refl.
Qed.

(** C8, as it is stated, fails: a line with index 0 whose output has a field
    [line_number] with the value 7 gets a record whose line number key
    holds 7, not the index of the line. *)
Lemma C8_counterexample :
  exists w br record,
    run engine_without_aggregation (BatchEngine_init 0)
        (Ret [line_input "a"]) ["out"] None false
        [EvLineDone 0 (Ret line_result_with_line_number); EvWaitWake; EvSleepDone]
    = Some (w, Ret (Some br))
    /\ line_results br = [line_result_with_line_number]
    /\ index (run_info line_result_with_line_number) = 0
    /\ read_file ["flows"; "out"; "output.jsonl"] (files w) = Some [record]
    /\ dict_get "line_number" record <> Some (VInt 0).
Proof.
  eexists. eexists. eexists.
  split; [vm_compute; reflexivity|].
  split; [reflexivity|]. split; [reflexivity|].
  split; [vm_compute; reflexivity|].
  vm_compute. discriminate.
Qed.

(** The output file of the run of three lines of which line 0 fails. *)
Lemma C8_witness :
  read_file ["flows"; "out"; "output.jsonl"] (files out_of_order_world)
  = Some (map (output_record engine_without_aggregation)
              (filter is_completed (line_results out_of_order_summary)))
  /\ dict_get "out" (output_record engine_without_aggregation
                                   (line_result 1 Completed "B"))
     = Some (VStr "B").
Proof.
  destruct (C8_output_file_of_completed_lines
              engine_without_aggregation (BatchEngine_init 0)
              (Ret three_inputs) ["out"] None false out_of_order_events
              out_of_order_world out_of_order_summary)
    as [Hfile Hrec].
  - vm_compute. reflexivity.
  - vm_compute. discriminate.
  - split; [exact Hfile|].
    destruct (Hrec (line_result 1 Completed "B")) as [Hout _].
    + repeat constructor. simpl. tauto.
    + apply Hout. reflexivity.
Defined.

(** C9.  In a flow without aggregation nodes [_exec_aggregation] returns the
    empty [AggregationResult] at once, whatever the inputs and the line
    results are, and no event of the run makes the engine call the
    executor's aggregation. *)
Theorem C9_no_aggregation_nodes_no_call :
  forall E, aggregation_nodes (_flow E) = [] ->
    (forall inputs_ lrs,
        _exec_aggregation_begin E inputs_ lrs
        = Ret (ReturnsAtOnce (mkAggregationResult [] [] [])))
    /\ (forall a w evs,
           aggregation_calls (_exec_in_task E a w evs) = aggregation_calls w).
Proof.
  intros E Hn. split.
  - intros. now apply aggregation_begin_without_nodes.
  - intros a w evs. now apply exec_in_task_aggregation_calls.
Qed.

(** The flow without aggregation node. *)
Lemma C9_witness :
  _exec_aggregation_begin engine_without_aggregation three_inputs
                          [line_result 0 Completed "A"]
  = Ret (ReturnsAtOnce (mkAggregationResult [] [] []))
  /\ aggregation_calls
       (_exec_in_task engine_without_aggregation
          (exec_args engine_without_aggregation three_inputs None ["out"] false)
          (BatchEngine_init 0) out_of_order_events)
     = [].
Proof.
  destruct (C9_no_aggregation_nodes_no_call engine_without_aggregation)
    as [Hbegin Hcalls].
  - reflexivity.
  - split; [apply Hbegin | apply Hcalls].
Defined.

(** C10, as the code has it.  An attribute that the ordinary lookup finds
    (a method of [dict], an attribute set on the instance) is what [d.k]
    gives, whether or not [k] is a key of [d]; when the ordinary lookup
    fails, [d.k] is [d[k]] for a key [k] of [d], and raises [AttributeError]
    for a name that is no key either. *)
Theorem C10_attribute_access :
  forall C d k,
    (forall v, __getattribute__ C d k = Ret v -> getattr C d k = Ret v)
    /\ (forall e v, __getattribute__ C d k = Raise e ->
                    dict_get k (entries d) = Some v ->
                    getattr C d k = Ret (Value v)
                    /\ getattr C d k = __getitem__ d k)
    /\ (forall e, __getattribute__ C d k = Raise e ->
                  dict_get k (entries d) = None ->
                  getattr C d k = Raise (AttributeError k)).
Proof.
  intros C d k. unfold getattr. split; [|split].
  - intros v Hv. now rewrite Hv.
  - intros e v He Hk. rewrite He. unfold __getattr__, dict_contains, __getitem__.
    rewrite Hk. now split.
  - intros e He Hk. rewrite He. unfold __getattr__, dict_contains.
    rewrite Hk.
    revert He. unfold __getattribute__.
    destruct (mem_string k (data_descriptors C)); [discriminate|].
    destruct (dict_get k (instance_dict d)); [discriminate|].
    destruct (mem_string k (class_attributes C)); [discriminate|].
    reflexivity.
Qed.

(** C10, as it is stated, fails: ["items"] is a key of the dict, and
    [d.items] is the method of [dict], not [d["items"]]. *)
Lemma C10_counterexample :
  dict_contains "items" (entries (mkAttrDict [("items", VInt 1)] [])) = true
  /\ getattr dict_class (mkAttrDict [("items", VInt 1)] []) "items"
     = Ret (ClassAttribute "items")
  /\ getattr dict_class (mkAttrDict [("items", VInt 1)] []) "items"
     <> __getitem__ (mkAttrDict [("items", VInt 1)] []) "items".
Proof.
  split; [reflexivity|]. split; [reflexivity|]. vm_compute. discriminate.
Qed.

(** A method of [dict], a key, and a name that is neither. *)
Lemma C10_witness :
  getattr dict_class (mkAttrDict [("choices", VStr "hello")] []) "get"
  = Ret (ClassAttribute "get")
  /\ getattr dict_class (mkAttrDict [("choices", VStr "hello")] []) "choices"
     = Ret (Value (VStr "hello"))
  /\ getattr dict_class (mkAttrDict [("choices", VStr "hello")] []) "usage"
     = Raise (AttributeError "usage").
Proof.
  split; [|split].
  - apply (proj1 (C10_attribute_access dict_class
                    (mkAttrDict [("choices", VStr "hello")] []) "get")).
    reflexivity.
  - eapply (proj1 (proj2 (C10_attribute_access dict_class
                    (mkAttrDict [("choices", VStr "hello")] []) "choices"))).
    + reflexivity.
    + reflexivity.
  - eapply (proj2 (proj2 (C10_attribute_access dict_class
                    (mkAttrDict [("choices", VStr "hello")] []) "usage"))).
    + reflexivity.
    + reflexivity.
Defined.

(** * Lemmas for the further properties *)

(** ** Sorting by line index *)

Section SortedUnique.
Context {A : Type} (key : A -> nat).

(** Two lists in ascending order of a key that takes each value once hold
    the same elements only if they are equal. *)
Lemma sorted_unique (l1 l2 : list A) :
  Sorted (fun x y => key x <= key y) l1 ->
  Sorted (fun x y => key x <= key y) l2 ->
  NoDup (map key l1) ->
  Permutation l1 l2 -> l1 = l2.
Proof.
    assert (Htrans : Relations_1.Transitive (fun x y : A => key x <= key y)).
    { intros x y z. lia. }
    intros H1. revert l2. induction l1 as [|a l1 IH]; intros l2 H2 Hnd Hp.
    - apply Permutation_nil in Hp. now subst.
    - destruct l2 as [|b l2].
      { apply Permutation_sym, Permutation_nil in Hp. discriminate. }
      assert (Hab : a = b).
      { pose proof (Sorted_StronglySorted Htrans H1) as S1.
        pose proof (Sorted_StronglySorted Htrans H2) as S2.
        inversion S1 as [|? ? _ F1]; inversion S2 as [|? ? _ F2]; subst.
        assert (Ha : In a (b :: l2))
          by (eapply Permutation_in; [exact Hp | now left]).
        assert (Hb : In b (a :: l1))
          by (eapply Permutation_in; [apply Permutation_sym, Hp | now left]).
        destruct Ha as [Ha|Ha]; [now symmetry|].
        destruct Hb as [Hb|Hb]; [exact Hb|].
        rewrite Forall_forall in F1, F2.
        pose proof (F1 b Hb) as L1. pose proof (F2 a Ha) as L2.
        simpl in L1, L2.
        inversion Hnd as [|? ? Hnotin _]; subst.
        exfalso. apply Hnotin.
        replace (key a) with (key b) by lia. now apply in_map. }
      subst b. f_equal. apply IH.
      + now inversion H1.
      + now inversion H2.
      + now inversion Hnd.
      + now apply Permutation_cons_inv in Hp.
Qed.
End SortedUnique.

Lemma sorted_by_index_unique (l l' : list LineResult) :
  NoDup (map line_index l) -> Permutation l l' -> Sorted index_le l' ->
  sorted_by_index l = l'.
Proof.
  intros Hnd Hp Hs.
  apply (sorted_unique line_index).
  - apply sorted_by_index_sorted.
  - exact Hs.
  - eapply Permutation_NoDup; [|exact Hnd].
    apply Permutation_map, Permutation_sym, sorted_by_index_perm.
  - eapply perm_trans; [apply sorted_by_index_perm | exact Hp].
Qed.

(** ** The keys of a dictionary *)

Lemma dict_set_keys (k : string) (v : PyVal) (d : Dict) :
  map fst (dict_set k v d)
  = if mem_string k (map fst d) then map fst d else map fst d ++ [k].
Proof.
  unfold mem_string. induction d as [|[k' v'] d IH]; simpl; [reflexivity|].
  destruct (String.eqb k k'); simpl; [reflexivity|].
  rewrite IH. now destruct (existsb (String.eqb k) (map fst d)).
Qed.

Lemma mem_string_In (k : string) (l : list string) :
  mem_string k l = true <-> In k l.
Proof.
  unfold mem_string. rewrite existsb_exists. split.
  - intros (x & Hx & He). apply String.eqb_eq in He. now subst.
  - intros H. exists k. split; [exact H | apply String.eqb_refl].
Qed.

Lemma mem_string_app (k : string) (l1 l2 : list string) :
  mem_string k (l1 ++ l2) = (mem_string k l1 || mem_string k l2)%bool.
Proof. unfold mem_string. apply existsb_app. Qed.

Lemma dict_update_keys (d1 d2 : Dict) :
  NoDup (map fst d2) ->
  map fst (dict_update d1 d2)
  = map fst d1
      ++ filter (fun k => negb (mem_string k (map fst d1))) (map fst d2).
Proof.
  unfold dict_update. revert d1.
  induction d2 as [|[k v] d2 IH]; intros d1 Hnd; simpl.
  - now rewrite app_nil_r.
  - inversion Hnd as [|? ? Hnotin Hnd']; subst.
    rewrite IH by assumption. rewrite dict_set_keys.
    destruct (mem_string k (map fst d1)) eqn:Hk; simpl; [reflexivity|].
    rewrite <- app_assoc. simpl. do 2 f_equal.
    apply filter_ext_in. intros k' Hk'.
    rewrite mem_string_app. simpl.
    destruct (String.eqb_spec k' k) as [->|Hne]; [contradiction|].
    now rewrite !Bool.orb_false_r.
Qed.

(** ** The positions of the completed line results *)

Lemma succeeded_from (lrs : list LineResult) (s i : nat) :
  In i (map fst (filter (fun ir : nat * RunInfo =>
                           Status_eqb (status (snd ir)) Completed)
                        (combine (seq s (List.length lrs)) (map run_info lrs))))
  <-> s <= i /\ exists r, nth_error lrs (i - s) = Some r /\ is_completed r = true.
Proof.
  revert s. induction lrs as [|r0 lrs IH]; intros s.
  - simpl. split; [contradiction|].
    intros (_ & r & Hr & _). destruct (i - s); discriminate.
  - cbn [List.length seq map combine filter snd].
    split.
    + intros Hin.
      assert (Hcases : (i = s /\ is_completed r0 = true)
                       \/ In i (map fst
                                  (filter (fun ir : nat * RunInfo =>
                                             Status_eqb (status (snd ir)) Completed)
                                          (combine (seq (S s) (List.length lrs))
                                                   (map run_info lrs))))).
      { unfold is_completed.
        destruct (Status_eqb (status (run_info r0)) Completed);
          [destruct Hin as [<-|Hin]; [left; now split | now right] | now right]. }
      destruct Hcases as [[-> Hc]|Hin'].
      * split; [lia|]. exists r0. rewrite Nat.sub_diag. now split.
      * apply IH in Hin'. destruct Hin' as (Hle & r & Hr & Hc).
        split; [lia|]. exists r. split; [|exact Hc].
        replace (i - s) with (S (i - S s)) by lia. exact Hr.
    + intros (Hle & r & Hr & Hc).
      destruct (Nat.eq_dec i s) as [->|Hne].
      * rewrite Nat.sub_diag in Hr. simpl in Hr. injection Hr as ->.
        unfold is_completed in Hc. rewrite Hc. now left.
      * assert (Hin' : In i (map fst
                               (filter (fun ir : nat * RunInfo =>
                                          Status_eqb (status (snd ir)) Completed)
                                       (combine (seq (S s) (List.length lrs))
                                                (map run_info lrs))))).
        { apply IH. split; [lia|]. exists r. split; [|exact Hc].
          replace (i - s) with (S (i - S s)) in Hr by lia. exact Hr. }
        destruct (Status_eqb (status (run_info r0)) Completed);
          [now right | exact Hin'].
Qed.

(** [succeeded] holds the positions of the line results with status
    [Completed]. *)
Lemma succeeded_of_In (lrs : list LineResult) (i : nat) :
  In i (succeeded_of (map run_info lrs))
  <-> exists r, nth_error lrs i = Some r /\ is_completed r = true.
Proof.
  unfold succeeded_of, enumerate. rewrite length_map.
  rewrite succeeded_from, Nat.sub_0_r. split.
  - now intros (_ & H).
  - intros H. split; [lia | exact H].
Qed.

Lemma succeeded_from_length (lrs : list LineResult) (s : nat) :
  List.length (filter (fun ir : nat * RunInfo =>
                         Status_eqb (status (snd ir)) Completed)
                      (combine (seq s (List.length lrs)) (map run_info lrs)))
  = List.length (filter is_completed lrs).
Proof.
  revert s. induction lrs as [|r lrs IH]; intros s; [reflexivity|].
  cbn [List.length seq map combine filter snd]. unfold is_completed at 1.
  destruct (Status_eqb (status (run_info r)) Completed); simpl; now rewrite IH.
Qed.

Lemma succeeded_of_length (lrs : list LineResult) :
  List.length (succeeded_of (map run_info lrs))
  = List.length (filter is_completed lrs).
Proof.
  unfold succeeded_of, enumerate.
  now rewrite length_map, length_map, succeeded_from_length.
Qed.

(** ** Comprehensions that may raise *)

Lemma map_outcome_Forall2 {A B : Type} (f : A -> Outcome B) (l : list A)
      (ys : list B) :
  map_outcome f l = Ret ys -> Forall2 (fun x y => f x = Ret y) l ys.
Proof.
  revert ys. induction l as [|x l IH]; intros ys H; simpl in H.
  - injection H as <-. constructor.
  - destruct (f x) as [y|e] eqn:Hx; simpl in H; [|discriminate].
    destruct (map_outcome f l) as [ys'|e]; simpl in H; [|discriminate].
    injection H as <-. constructor; [exact Hx | now apply IH].
Qed.

Lemma map_outcome_length {A B : Type} (f : A -> Outcome B) (l : list A)
      (ys : list B) :
  map_outcome f l = Ret ys -> List.length ys = List.length l.
Proof.
  intros H. apply map_outcome_Forall2 in H. symmetry.
  eapply Forall2_length, H.
Qed.

Lemma map_outcome_ext_in {A B : Type} (f g : A -> Outcome B) (l : list A) :
  (forall x, In x l -> f x = g x) -> map_outcome f l = map_outcome g l.
Proof.
  induction l as [|x l IH]; intros H; simpl; [reflexivity|].
  rewrite (H x) by now left. rewrite IH; [reflexivity|].
  intros y Hy. apply H. now right.
Qed.

(** When every failure is the same exception and some element fails, the
    comprehension raises that exception. *)
Lemma map_outcome_raises {A B : Type} (f : A -> Outcome B) (l : list A)
      (e : PyExc) (x : A) :
  (forall y e', f y = Raise e' -> e' = e) ->
  In x l -> f x = Raise e -> map_outcome f l = Raise e.
Proof.
  intros Hsame. induction l as [|y l IH]; intros Hin Hx; [contradiction|].
  simpl. destruct (f y) as [b|e'] eqn:Hy; simpl.
  - destruct Hin as [->|Hin]; [congruence|]. now rewrite (IH Hin Hx).
  - now rewrite (Hsame y e' Hy).
Qed.

Lemma list_index_raises {A : Type} (l : list A) (i : nat) (e : PyExc) :
  list_index l i = Raise e -> e = Exc false "IndexError" "list index out of range".
Proof.
  unfold list_index. destruct (nth_error l i); [discriminate|]. congruence.
Qed.

Lemma list_index_out_of_range {A : Type} (l : list A) (i : nat) :
  List.length l <= i ->
  list_index l i = Raise (Exc false "IndexError" "list index out of range").
Proof.
  intros H. unfold list_index.
  now rewrite (proj2 (nth_error_None l i) H).
Qed.

Lemma transpose_keys (rows : list Dict) (keys : list string) :
  map fst (transpose rows keys) = keys.
Proof.
  unfold transpose. rewrite map_map. simpl. apply map_id.
Qed.

Lemma transpose_column_length (rows : list Dict) (keys : list string)
      (k : string) (col : list (option PyVal)) :
  In (k, col) (transpose rows keys) -> List.length col = List.length rows.
Proof.
  unfold transpose. intros H. apply in_map_iff in H.
  destruct H as (k' & Heq & _). injection Heq as _ <-. apply length_map.
Qed.

Lemma collect_lines_shape (indexes : list nat) (kvs c : Columns) :
  collect_lines indexes kvs = Ret c ->
  map fst c = map fst kvs
  /\ forall k col, In (k, col) c -> List.length col = List.length indexes.
Proof.
  unfold collect_lines. intros H. apply map_outcome_Forall2 in H.
  induction H as [|kv y kvs c Hy _ [IH1 IH2]]; simpl.
  - split; [reflexivity | contradiction].
  - destruct (map_outcome (list_index (snd kv)) indexes) as [col|e] eqn:Hcol;
      simpl in Hy; [|discriminate].
    injection Hy as <-. simpl. split; [now rewrite IH1|].
    intros k col' [Heq|Hin]; [|now apply (IH2 k)].
    injection Heq as _ <-. now apply map_outcome_length in Hcol.
Qed.

(** ** Position and line index *)


(** ** The registry of executor proxy classes *)

Lemma executor_proxy_class_registered {C : Type} (classes : ProxyClasses C)
      (type language : string) (cls : C) :
  executor_proxy_class (register_executor type cls classes) language
  = if String.eqb language type then Ret cls
    else executor_proxy_class classes language.
Proof.
  induction classes as [|[k c] classes IH]; simpl.
  - reflexivity.
  - destruct (String.eqb_spec type k) as [->|Hne]; simpl.
    + now destruct (String.eqb language k).
    + rewrite IH. destruct (String.eqb_spec language k) as [->|Hne2].
      * destruct (String.eqb_spec k type); [congruence|reflexivity].
      * reflexivity.
Qed.

Lemma executor_proxy_class_missing {C : Type} (classes : ProxyClasses C)
      (language : string) :
  ~ In language (map fst classes) ->
  executor_proxy_class classes language = Raise (Exc false "KeyError" language).
Proof.
  induction classes as [|[k c] classes IH]; simpl; intros H; [reflexivity|].
  destruct (String.eqb_spec language k) as [->|Hne]; [tauto|]. apply IH. tauto.
Qed.

(** ** Where the supervisor returns *)

(** A supervisor that has returned has done so at the end of one of its
    sleeps: with the flag set, or with the worker done. *)
Lemma supervisor_returns_somewhere E a evs w o :
  supervisor w = None ->
  supervisor (fold_left (step E a) evs w) = Some o ->
  exists evs1 evs2,
    evs = evs1 ++ EvSleepDone :: evs2
    /\ supervisor (fold_left (step E a) evs1 w) = None
    /\ ((_is_canceled (fold_left (step E a) evs1 w) = true
         /\ o = Ret (Some (BatchResult_create
                             (_start_time (fold_left (step E a) evs1 w))
                             (clock (fold_left (step E a) evs1 w))
                             (_line_results (fold_left (step E a) evs1 w))
                             (_aggr_results (fold_left (step E a) evs1 w))
                             (Some Canceled))))
        \/ (_is_canceled (fold_left (step E a) evs1 w) = false
            /\ exec_pc (fold_left (step E a) evs1 w) = Done o)).
Proof.
  revert w. induction evs as [|ev evs IH]; intros w Hs Ho; simpl in Ho.
  - congruence.
  - destruct (supervisor (step E a w ev)) as [o'|] eqn:Hs'.
    + rewrite (steps_supervisor _ _ _ _ _ Hs') in Ho. injection Ho as <-.
      destruct (supervisor_returns E a w ev o' Hs Hs') as (-> & Hcases).
      exists [], evs. simpl. split; [reflexivity|]. split; [exact Hs|].
      exact Hcases.
    + destruct (IH _ Hs' Ho) as (evs1 & evs2 & -> & Hn & Hc).
      exists (ev :: evs1), evs2. simpl. auto.
Qed.

Lemma exec_supervisor E a w : supervisor (_exec E a (create_task w)) = None.
Proof.
  unfold _exec, _exec_batch.
  destruct (_executor_proxy E) as [f|];
    [destruct (f (batch_inputs a) (output_dir a) (run_id a))|];
    simpl; try reflexivity; frames; simpl in *; congruence.
Qed.

Lemma exec_is_canceled E a w :
  _is_canceled (_exec E a (create_task w)) = _is_canceled w.
Proof.
  unfold _exec, _exec_batch.
  destruct (_executor_proxy E) as [f|];
    [destruct (f (batch_inputs a) (output_dir a) (run_id a))|];
    simpl; try reflexivity; frames; simpl in *; congruence.
Qed.

Lemma run_handle_ret {A : Type} (o : Outcome A) (r : A) :
  run_handle o = Ret r -> o = Ret r.
Proof.
  destruct o as [x|e]; simpl; [congruence|].
  destruct (exc_is_promptflow e); discriminate.
Qed.

Lemma run_handle_raise {A : Type} (o : Outcome A) (e : PyExc) :
  run_handle o = Raise e -> exists e1, o = Raise e1.
Proof. destruct o as [x|e1]; simpl; [discriminate|]. now exists e1. Qed.

(** ** The invariant of the worker *)

Lemma begin_returns_at_once E inputs_ lrs r :
  _exec_aggregation_begin E inputs_ lrs = Ret (ReturnsAtOnce r) ->
  aggregation_nodes (_flow E) = [].
Proof.
  unfold _exec_aggregation_begin.
  destruct (aggregation_nodes (_flow E)); [reflexivity|].
  destruct (map_outcome _ _); simpl; [|discriminate].
  destruct (map_outcome _ _); simpl; [|discriminate].
  destruct (collect_lines _ _); simpl; discriminate.
Qed.

Lemma begin_calls_executor E inputs_ lrs c1 c2 :
  _exec_aggregation_begin E inputs_ lrs = Ret (CallsExecutor c1 c2) ->
  aggregation_nodes (_flow E) <> [].
Proof.
  unfold _exec_aggregation_begin.
  destruct (aggregation_nodes (_flow E)); [discriminate|]. discriminate.
Qed.

Ltac open_invariant Hinv :=
  unfold worker_invariant in Hinv;
  repeat match goal with
    | H : exec_pc _ = _ |- _ => rewrite H in Hinv
    end.

Ltac aggregation_facts :=
  repeat match goal with
    | H : _exec_aggregation_begin _ _ _ = Ret (ReturnsAtOnce _) |- _ =>
        apply begin_returns_at_once in H
    | H : _exec_aggregation_begin _ _ _ = Ret (CallsExecutor _ _) |- _ =>
        apply begin_calls_executor in H
    end.

Ltac worker_invariant_cases :=
  first
    [ contradiction
    | intuition (subst; eauto; try congruence; try lia); fail
    | intuition (subst; try congruence; try lia);
      first [ left; split; [assumption | reflexivity]
            | right; split; [assumption | eauto]
            | eauto ] ].

Lemma worker_invariant_step E a files0 calls0 w ev :
  worker_invariant E a files0 calls0 w ->
  worker_invariant E a files0 calls0 (step E a w ev).
Proof.
  intros Hinv.
  destruct ev; step_cases; try exact Hinv; worker_cases; aggregation_facts;
    open_invariant Hinv; unfold worker_invariant, one_aggregation_call in *;
    unfold output_file; simpl in *; try (cancel_frame w).
  all: try worker_invariant_cases.
  all: try (destruct (exec_pc w) as [| | | |[[br|]|e]];
            intuition (try congruence; try lia); fail).
Qed.

Lemma worker_invariant_start E a w :
  worker_invariant E a (files w) (aggregation_calls w) (_exec E a (create_task w)).
Proof.
  unfold _exec, _exec_batch.
  destruct (_executor_proxy E) as [f|];
    [destruct (f (batch_inputs a) (output_dir a) (run_id a))|];
    worker_cases; aggregation_facts;
    unfold worker_invariant, one_aggregation_call, output_file; simpl.
  all: try worker_invariant_cases.
Qed.

Lemma worker_invariant_steps E a files0 calls0 evs w :
  worker_invariant E a files0 calls0 w ->
  worker_invariant E a files0 calls0 (fold_left (step E a) evs w).
Proof.
  revert w. induction evs as [|ev evs IH]; intros w H; simpl; [exact H|].
  now apply IH, worker_invariant_step.
Qed.

Lemma exec_in_task_worker_invariant E a w evs :
  worker_invariant E a (files w) (aggregation_calls w) (_exec_in_task E a w evs).
Proof.
  unfold _exec_in_task. apply worker_invariant_steps, worker_invariant_start.
Qed.

(** ** The tasks of the line scheduler *)

Lemma complete_task_fst i o p p' :
  complete_task i o p = Some p' -> map fst p' = map fst p.
Proof.
  revert p'. induction p as [|[j t] p IH]; intros p' H; simpl in H; [discriminate|].
  destruct (Nat.eqb i j).
  - destruct t; [injection H as <-; reflexivity | discriminate].
  - destruct (complete_task i o p) as [q|]; simpl in H; [|discriminate].
    injection H as <-. simpl. now rewrite (IH q).
Qed.

Lemma complete_task_was_running i o p p' :
  complete_task i o p = Some p' -> In (i, Running) p.
Proof.
  revert p'. induction p as [|[j t] p IH]; intros p' H; simpl in H; [discriminate|].
  destruct (Nat.eqb_spec i j) as [->|Hne].
  - destruct t; [now left | discriminate].
  - destruct (complete_task i o p) as [q|]; simpl in H; [|discriminate].
    right. now apply (IH q).
Qed.

Lemma complete_task_still_running i o p p' j :
  complete_task i o p = Some p' -> In (j, Running) p' -> In (j, Running) p.
Proof.
  revert p'. induction p as [|[k t] p IH]; intros p' H Hin; simpl in H; [discriminate|].
  destruct (Nat.eqb_spec i k) as [->|Hne].
  - destruct t; [|discriminate]. injection H as <-.
    destruct Hin as [Heq|Hin]; [discriminate | now right].
  - destruct (complete_task i o p) as [q|]; simpl in H; [|discriminate].
    injection H as <-. destruct Hin as [Heq|Hin]; [now left|].
    right. now apply (IH q).
Qed.

Lemma complete_task_not_running i o p p' :
  complete_task i o p = Some p' -> NoDup (map fst p) -> ~ In (i, Running) p'.
Proof.
  revert p'. induction p as [|[k t] p IH]; intros p' H Hnd Hin; simpl in H;
    [discriminate|].
  inversion Hnd as [|? ? Hnotin Hnd']; subst.
  destruct (Nat.eqb_spec i k) as [->|Hne].
  - destruct t; [|discriminate]. injection H as <-.
    destruct Hin as [Heq|Hin]; [discriminate|].
    apply Hnotin. now apply (in_map fst) in Hin.
  - destruct (complete_task i o p) as [q|]; simpl in H; [|discriminate].
    injection H as <-. destruct Hin as [Heq|Hin]; [congruence|].
    now apply (IH q eq_refl Hnd').
Qed.

(** Dropping the finished tasks keeps the names of the tasks distinct. *)
Lemma running_tasks_NoDup (tasks : list (nat * LineTask)) :
  NoDup (map fst tasks) -> NoDup (map fst (filter is_running tasks)).
Proof.
  intros Hnd. induction tasks as [|t tasks IH]; simpl; [constructor|].
  inversion Hnd as [|? ? Hnotin Hrest]; subst.
  destruct (is_running t); simpl; [|now apply IH].
  constructor; [|now apply IH].
  intros Hin. apply Hnotin. apply in_map_iff in Hin.
  destruct Hin as (t' & Heq & Hin). apply filter_In in Hin.
  apply in_map_iff. exists t'. tauto.
Qed.

(** What a step does to the tasks and to the record of the executor's
    answers. *)
Lemma step_tasks E a w ev :
  (exists i o p, complete_task i o (pending w) = Some p
                 /\ pending (step E a w ev) = p
                 /\ executor_log (step E a w ev) = executor_log w ++ [(i, o)])
  \/ (executor_log (step E a w ev) = executor_log w
      /\ (pending (step E a w ev) = pending w
          \/ pending (step E a w ev) = filter is_running (pending w))).
Proof.
  destruct ev; step_cases; try (right; split; [reflexivity | now left]);
    frames; simpl in *.
  1: { left. eexists. eexists. eexists. split; [eassumption|]. now split. }
  all: try (cancel_frame w).
  all: right; split;
    [ first [assumption | reflexivity]
    | first [ left; first [assumption | reflexivity]
            | right; first [assumption | reflexivity] ] ].
Qed.

Lemma tasks_invariant_step E a w ev :
  tasks_invariant a w -> tasks_invariant a (step E a w ev).
Proof.
  intros (Hp & Hl & Hpb & Hlb & Hcount).
  unfold tasks_invariant, in_flight in *.
  destruct (step_tasks E a w ev)
    as [(i & o & p & Hct & -> & ->)|(-> & [->| ->])].
  - (* a line is answered *)
    pose proof (complete_task_fst _ _ _ _ Hct) as Hfst.
    pose proof (complete_task_was_running _ _ _ _ Hct) as Hrun.
    assert (Hi : In i (map fst (pending w))) by now apply (in_map fst) in Hrun.
    rewrite Hfst, map_app, length_app. simpl.
    split; [exact Hp|]. split; [|split; [exact Hpb|split]].
    + eapply Permutation_NoDup; [apply Permutation_cons_append|].
      constructor; [|exact Hl].
      intros Hin. now apply Hlb in Hin.
    + intros j Hj. apply in_app_or in Hj. destruct Hj as [Hj|[<-|[]]].
      * destruct (Hlb j Hj) as [Hlt Hnr]. split; [exact Hlt|].
        intros Hin. apply Hnr. eapply complete_task_still_running; eassumption.
      * split; [now apply Hpb|]. eapply complete_task_not_running; eassumption.
    + apply complete_task_running in Hct. lia.
  - repeat split; try assumption; now apply Hlb.
  - rewrite filter_running_idempotent.
    split; [now apply running_tasks_NoDup|]. split; [exact Hl|].
    split; [|split; [|exact Hcount]].
    + intros i Hi. apply Hpb. apply in_map_iff in Hi.
      destruct Hi as (x & <- & Hx). apply filter_In in Hx.
      apply in_map. tauto.
    + intros i Hi. destruct (Hlb i Hi) as [Hlt Hnr]. split; [exact Hlt|].
      intros Hin. apply filter_In in Hin. tauto.
Qed.

Lemma tasks_invariant_steps E a evs w :
  tasks_invariant a w -> tasks_invariant a (fold_left (step E a) evs w).
Proof.
  revert w. induction evs as [|ev evs IH]; intros w H; simpl; [exact H|].
  now apply IH, tasks_invariant_step.
Qed.

Lemma enumerate_fst {A : Type} (l : list A) :
  map fst (enumerate l) = seq 0 (List.length l).
Proof.
  unfold enumerate. generalize 0.
  induction l as [|x l IH]; intros s; simpl; [reflexivity|]. now rewrite IH.
Qed.

Lemma tasks_invariant_start E a w :
  _executor_proxy E = OtherExecutorProxy -> executor_log w = [] ->
  tasks_invariant a (_exec E a (create_task w)).
Proof.
  intros HE Hlog.
  pose proof (all_lines_in_flight E a w HE) as Hfl.
  unfold tasks_invariant. rewrite Hfl. clear Hfl.
  unfold _exec. rewrite HE. unfold _exec_batch.
  frames. simpl in *.
  repeat match goal with
         | H : pending _ = _ |- _ => rewrite H
         | H : executor_log _ = _ |- _ => rewrite H
         end.
  rewrite ?Hlog, !map_map. simpl.
  change (map (fun x : nat * Dict => fst x) (enumerate (batch_inputs a)))
    with (map fst (enumerate (batch_inputs a))).
  rewrite enumerate_fst.
  split; [apply seq_NoDup|]. split; [constructor|].
  split; [|split; [intros i []|reflexivity]].
  intros i Hi. apply in_seq in Hi. lia.
Qed.

(** ** A run on [PythonExecutorProxy] *)

Lemma delegated_step E a lrs log0 w ev :
  delegated lrs log0 w -> delegated lrs log0 (step E a w ev).
Proof.
  intros Hinv. pose proof Hinv as (Hp & Hl & Hlr & Hpc).
  destruct ev; unfold step.
  - rewrite Hp. exact Hinv.
  - destruct Hpc as [Hpc|(o & Hpc)]; rewrite Hpc; exact Hinv.
  - destruct Hpc as [Hpc|(o' & Hpc)]; rewrite Hpc; [|exact Hinv].
    destruct (must_cancel w); [exact Hinv|].
    destruct (_exec_aggregation_handle o); unfold delegated; simpl;
      repeat split; try assumption; right; eexists; reflexivity.
  - unfold delegated; simpl. tauto.
  - destruct (supervisor w); [exact Hinv|].
    destruct (_is_canceled w).
    + unfold delegated; simpl. cancel_frame w. tauto.
    + destruct (exec_pc w); exact Hinv.
  - destruct (must_cancel w); [|exact Hinv].
    destruct Hpc as [Hpc|(o & Hpc)]; rewrite Hpc; [|exact Hinv].
    unfold delegated; simpl. repeat split; try assumption.
    right; eexists; reflexivity.
  - unfold delegated; simpl. tauto.
Qed.

Lemma delegated_steps E a lrs log0 evs w :
  delegated lrs log0 w -> delegated lrs log0 (fold_left (step E a) evs w).
Proof.
  revert w. induction evs as [|ev evs IH]; intros w H; simpl; [exact H|].
  now apply IH, delegated_step.
Qed.

Lemma delegated_start E a w f lrs :
  _executor_proxy E = PythonExecutorProxy f ->
  f (batch_inputs a) (output_dir a) (run_id a) = Ret lrs ->
  delegated lrs (executor_log w) (_exec E a (create_task w)).
Proof.
  intros HE Hf. unfold _exec. rewrite HE, Hf.
  worker_cases; unfold delegated; simpl; repeat split;
    first [ now left | right; eexists; reflexivity ].
Qed.

(** ** The worlds of a run *)

Lemma run_returns E w inputs_ dir rid flag evs w' o :
  run E w (Ret inputs_) dir rid flag evs = Some (w', o) ->
  exists o1,
    supervisor (run_world E w inputs_ dir rid flag evs) = Some o1
    /\ w' = destroy (run_world E w inputs_ dir rid flag evs)
    /\ o = run_handle o1.
Proof.
  intros Hrun.
  destruct (run_inversion _ _ _ _ _ _ _ _ _ Hrun)
    as [(e & He & _)|(inputs' & o1 & Hi & Hs & -> & ->)]; [discriminate|].
  injection Hi as <-. exists o1. now split.
Qed.

Lemma run_world_returns E w inputs_ dir rid flag evs o1 :
  supervisor (run_world E w inputs_ dir rid flag evs) = Some o1 ->
  exists evs1 evs2,
    evs = evs1 ++ EvSleepDone :: evs2
    /\ supervisor (run_world E w inputs_ dir rid flag evs1) = None
    /\ ((_is_canceled (run_world E w inputs_ dir rid flag evs1) = true
         /\ o1 = Ret (Some (BatchResult_create
                              (_start_time (run_world E w inputs_ dir rid flag evs1))
                              (clock (run_world E w inputs_ dir rid flag evs1))
                              (_line_results (run_world E w inputs_ dir rid flag evs1))
                              (_aggr_results (run_world E w inputs_ dir rid flag evs1))
                              (Some Canceled))))
        \/ (_is_canceled (run_world E w inputs_ dir rid flag evs1) = false
            /\ exec_pc (run_world E w inputs_ dir rid flag evs1) = Done o1)).
Proof.
  unfold run_world, _exec_in_task. intros Hs.
  apply supervisor_returns_somewhere; [apply exec_supervisor | exact Hs].
Qed.

Lemma run_world_loop_invariant E w inputs_ dir rid flag evs :
  loop_invariant E (exec_args E inputs_ rid dir flag)
                 (run_world E w inputs_ dir rid flag evs).
Proof. unfold run_world, started. apply exec_in_task_loop_invariant. Qed.

Lemma run_world_worker_invariant E w inputs_ dir rid flag evs :
  worker_invariant E (exec_args E inputs_ rid dir flag)
                   (files w) (aggregation_calls w)
                   (run_world E w inputs_ dir rid flag evs).
Proof.
  unfold run_world.
  apply (exec_in_task_worker_invariant E (exec_args E inputs_ rid dir flag)
           (started w) evs).
Qed.

Lemma run_world_start_time E w inputs_ dir rid flag evs :
  _start_time (run_world E w inputs_ dir rid flag evs) = clock w.
Proof.
  unfold run_world, _exec_in_task. rewrite steps_start_time.
  now rewrite (proj1 (exec_start_time E _ (started w))).
Qed.

Lemma run_world_clock E w inputs_ dir rid flag evs1 evs2 :
  clock w <= clock (run_world E w inputs_ dir rid flag evs1)
  /\ clock (run_world E w inputs_ dir rid flag evs1)
     <= clock (run_world E w inputs_ dir rid flag (evs1 ++ evs2)).
Proof.
  split.
  - unfold run_world, _exec_in_task.
    eapply Nat.le_trans; [|apply steps_clock].
    rewrite (proj2 (exec_start_time E _ (started w))). simpl. lia.
  - rewrite run_world_app. apply steps_clock.
Qed.

Lemma run_world_is_canceled E w inputs_ dir rid flag evs :
  _is_canceled w = true ->
  _is_canceled (run_world E w inputs_ dir rid flag evs) = true.
Proof.
  intros Hc. unfold run_world, _exec_in_task. apply steps_is_canceled.
  now rewrite exec_is_canceled.
Qed.

Lemma run_world_tasks_invariant E w inputs_ dir rid flag evs :
  _executor_proxy E = OtherExecutorProxy -> executor_log w = [] ->
  tasks_invariant (exec_args E inputs_ rid dir flag)
                  (run_world E w inputs_ dir rid flag evs).
Proof.
  intros HE Hlog. unfold run_world, _exec_in_task.
  apply tasks_invariant_steps. now apply tasks_invariant_start.
Qed.

Lemma exec_line_results_incl E a w :
  _executor_proxy E = OtherExecutorProxy ->
  incl (_line_results w) (_line_results (_exec E a (create_task w))).
Proof.
  intros HE. unfold _exec. rewrite HE. unfold _exec_batch.
  match goal with
  | |- incl _ (_line_results (_exec_batch_loop ?E ?a ?w1 ?c)) =>
      destruct (batch_loop_cases E a w1 c) as [? ?|? ?|w' ? HAB]
  end; simpl; try apply incl_refl.
  assert (Hlr : _line_results w' = sorted_by_index (_line_results w)).
  { destruct HAB; reflexivity. }
  rewrite Hlr. intros r Hr. now apply sorted_by_index_In.
Qed.

Lemma steps_done_absorbing E a evs w o :
  exec_pc w = Done o -> exec_pc (fold_left (step E a) evs w) = Done o.
Proof.
  revert w. induction evs as [|ev evs IH]; intros w H; simpl; [exact H|].
  now apply IH, step_done_absorbing.
Qed.

(** ** The answers of the executor *)

Lemma log_results_shorter (l : list (nat * Outcome LineResult)) :
  List.length (log_results l) <= List.length l
  /\ forall i e, In (i, Raise e) l ->
                 List.length (log_results l) < List.length l.
Proof.
  induction l as [|[j [r|e']] l [IH1 IH2]]; simpl.
  - split; [lia | contradiction].
  - split; [lia|]. intros i e [Heq|Hin]; [discriminate|].
    specialize (IH2 i e Hin). lia.
  - split; [lia|]. intros i e _. lia.
Qed.

Lemma log_results_indices (l : list (nat * Outcome LineResult)) :
  (forall i e, ~ In (i, Raise e) l) ->
  (forall i r, In (i, Ret r) l -> line_index r = i) ->
  map line_index (log_results l) = map fst l.
Proof.
  induction l as [|[j [r|e]] l IH]; intros Hnr Hidx; simpl.
  - reflexivity.
  - rewrite (Hidx j r) by now left. f_equal. apply IH.
    + intros i e Hin. apply (Hnr i e). now right.
    + intros i r' Hin. apply Hidx. now right.
  - exfalso. apply (Hnr j e). now left.
Qed.

Lemma Sorted_line_index (l : list LineResult) :
  Sorted index_le l -> Sorted (fun x y : nat => x <= y) (map line_index l).
Proof.
  induction 1 as [|r l _ IH Hhd]; simpl; constructor; [exact IH|].
  destruct Hhd; simpl; constructor. assumption.
Qed.

Lemma Sorted_seq (s n : nat) : Sorted (fun x y : nat => x <= y) (seq s n).
Proof.
  revert s. induction n as [|n IH]; intros s; simpl; constructor; [apply IH|].
  destruct n; simpl; constructor. lia.
Qed.

(** * Further properties of the code *)

(** ** [_exec_in_task]: when [run] returns *)

(** X1.  [run] returns only at the end of a sleep of the supervisor, and at
    the first one at which [cancel()] has been called or the worker is
    done: with fewer events [run] has not returned; in the first case the
    result is a summary with status [Canceled], in the second it is the
    result of the worker, passed through the handler of [run]. *)
Theorem run_returns_at_a_poll E w inputs_ dir rid flag evs w' o :
  run E w (Ret inputs_) dir rid flag evs = Some (w', o) ->
  exists evs1 evs2,
    evs = evs1 ++ EvSleepDone :: evs2
    /\ run E w (Ret inputs_) dir rid flag evs1 = None
    /\ ((_is_canceled (run_world E w inputs_ dir rid flag evs1) = true
         /\ canceled_result o)
        \/ (_is_canceled (run_world E w inputs_ dir rid flag evs1) = false
            /\ exists o1,
                exec_pc (run_world E w inputs_ dir rid flag evs1) = Done o1
                /\ o = run_handle o1)).
Proof.
  intros Hrun.
  destruct (run_returns _ _ _ _ _ _ _ _ _ Hrun) as (o1 & Hs & _ & ->).
  destruct (run_world_returns _ _ _ _ _ _ _ _ Hs)
    as (evs1 & evs2 & -> & Hnone & Hcases).
  exists evs1, evs2. split; [reflexivity|]. split.
  - unfold run. unfold run_world, started in Hnone. now rewrite Hnone.
  - destruct Hcases as [(Hc & ->)|(Hc & Hpc)].
    + left. split; [exact Hc|]. eexists. split; reflexivity.
    + right. split; [exact Hc|]. now exists o1.
Qed.

(** The run of the three lines returns at its one poll. *)
Lemma run_returns_at_a_poll_witness :
  exists evs1 evs2,
    out_of_order_events = evs1 ++ EvSleepDone :: evs2
    /\ run engine_without_aggregation (BatchEngine_init 0) (Ret three_inputs)
           ["out"] None false evs1 = None.
Proof.
  destruct (run_returns_at_a_poll
              engine_without_aggregation (BatchEngine_init 0) three_inputs
              ["out"] None false out_of_order_events
              out_of_order_world (Ret (Some out_of_order_summary)))
    as (evs1 & evs2 & H1 & H2 & _).
  - vm_compute. reflexivity.
  - exists evs1, evs2. now split.
Defined.

(** X2.  Every summary [run] returns, completed or canceled, has as start
    time the time at which [run] was entered, and an end time between that
    time and the time at which [run] returns. *)
Theorem summary_times E w processed dir rid flag evs w' br :
  run E w processed dir rid flag evs = Some (w', Ret (Some br)) ->
  start_time br = clock w
  /\ clock w <= end_time br
  /\ end_time br <= clock w'.
Proof.
  intros Hrun. destruct processed as [inputs_|e].
  2: { unfold run in Hrun. simpl in Hrun.
       destruct (exc_is_promptflow e); discriminate. }
  destruct (run_returns _ _ _ _ _ _ _ _ _ Hrun) as (o1 & Hs & -> & Ho).
  symmetry in Ho. apply run_handle_ret in Ho. subst o1.
  destruct (run_world_returns _ _ _ _ _ _ _ _ Hs)
    as (evs1 & evs2 & -> & _ & Hcases).
  pose proof (run_world_start_time E w inputs_ dir rid flag evs1) as Hstart.
  destruct (run_world_clock E w inputs_ dir rid flag evs1 (EvSleepDone :: evs2))
    as [Hc1 Hc2].
  simpl.
  destruct Hcases as [(_ & Hbr)|(_ & Hpc)].
  - injection Hbr as ->. simpl. rewrite Hstart. repeat split; lia.
  - pose proof (run_world_worker_invariant E w inputs_ dir rid flag evs1) as Hw.
    unfold worker_invariant in Hw. rewrite Hpc in Hw.
    destruct Hw as (Hst & Hend & _).
    destruct (run_world_loop_invariant E w inputs_ dir rid flag evs1)
      as (_ & _ & Hwf & _).
    destruct (Hwf br Hpc) as (_ & _ & _ & Hle & _).
    rewrite Hst, Hstart in *. repeat split; lia.
Qed.

(** The run of the three lines: entered at time 0, the clock moves on by 3
    before the supervisor polls. *)
Lemma summary_times_witness :
  start_time out_of_order_summary = 0
  /\ 0 <= end_time out_of_order_summary
  /\ end_time out_of_order_summary <= clock out_of_order_world.
Proof.
  apply (summary_times engine_without_aggregation (BatchEngine_init 0)
           (Ret three_inputs) ["out"] None false out_of_order_events
           out_of_order_world out_of_order_summary).
  vm_compute. reflexivity.
Defined.

(** ** [_exec] and [_persist_outputs]: what a run writes *)

(** X3.  Of its own, that is through [_persist_outputs], the engine writes
    at most one file in a run, the output file of the output directory, and
    leaves every other file as it was; in a run that raises (a line
    failure, an error of the aggregation, an error of the input processing)
    it has written nothing.  What an executor writes by itself is not among
    the [files]: [PythonExecutorProxy._exec_batch] is handed the output
    directory. *)
Theorem run_writes_only_the_output_file E w processed dir rid flag evs w' o :
  run E w processed dir rid flag evs = Some (w', o) ->
  (files w' = files w
   \/ exists records,
       files w'
       = (resolve_dir_to_absolute (collab E) (_working_dir E) dir
            ++ [OUTPUT_FILE_NAME], records) :: files w)
  /\ (forall e, o = Raise e -> files w' = files w)
  /\ (forall p,
        p <> resolve_dir_to_absolute (collab E) (_working_dir E) dir
               ++ [OUTPUT_FILE_NAME] ->
        read_file p (files w') = read_file p (files w)).
Proof.
  intros Hrun.
  assert (Hfiles :
            (files w' = files w
             \/ exists records,
                 files w'
                 = (resolve_dir_to_absolute (collab E) (_working_dir E) dir
                      ++ [OUTPUT_FILE_NAME], records) :: files w)
            /\ (forall e, o = Raise e -> files w' = files w)).
  { destruct processed as [inputs_|e0].
    2: { unfold run in Hrun. injection Hrun as <- _. simpl. auto. }
    destruct (run_returns _ _ _ _ _ _ _ _ _ Hrun) as (o1 & Hs & -> & ->).
    pose proof (run_world_worker_invariant E w inputs_ dir rid flag evs) as Hw.
    destruct (run_world_loop_invariant E w inputs_ dir rid flag evs)
      as (_ & _ & _ & Hret).
    unfold worker_invariant, output_file in Hw. simpl in Hw |- *.
    split.
    - destruct (exec_pc (run_world E w inputs_ dir rid flag evs))
        as [| |c v| |[[br|]|e]]; try contradiction;
        try (left; tauto).
      right. eexists. apply Hw.
    - intros e He. apply run_handle_raise in He. destruct He as [e1 ->].
      destruct (Hret _ Hs) as [(br & Hbr & _)|(Hpc & _)]; [discriminate|].
      rewrite Hpc in Hw. tauto. }
  destruct Hfiles as [Hcases Hraise]. split; [exact Hcases|].
  split; [exact Hraise|].
  intros p Hp. destruct Hcases as [->|(records & ->)]; [reflexivity|].
  simpl. unfold Path_eqb.
  destruct (list_eq_dec string_dec p _) as [Heq|_]; [contradiction|reflexivity].
Qed.

(** The run in which the executor raises for line 1 writes nothing. *)
Lemma run_writes_only_the_output_file_witness :
  files raising_world = files (BatchEngine_init 0).
Proof.
  destruct (run_writes_only_the_output_file
              engine_without_aggregation (BatchEngine_init 0) (Ret three_inputs)
              ["out"] None false raising_events raising_world raising_outcome)
    as (_ & Hraise & _).
  - vm_compute. reflexivity.
  - eapply Hraise. vm_compute. reflexivity.
Defined.

(** X4.  A run calls the executor's aggregation at most once, with the id
    of the run (a fresh one if none was given); and a summary that is not
    canceled comes without such a call in a flow without aggregation nodes
    and after exactly one in a flow with aggregation nodes. *)
Theorem aggregation_called_at_most_once E w inputs_ dir rid flag evs w' o :
  run E w (Ret inputs_) dir rid flag evs = Some (w', o) ->
  (aggregation_calls w' = aggregation_calls w
   \/ exists c1 c2,
       aggregation_calls w'
       = aggregation_calls w ++ [(c1, c2, resolve_run_id E rid)])
  /\ (forall br, o = Ret (Some br) -> br_status br <> Canceled ->
        (aggregation_nodes (_flow E) = []
         /\ aggregation_calls w' = aggregation_calls w)
        \/ (aggregation_nodes (_flow E) <> []
            /\ exists c1 c2,
                aggregation_calls w'
                = aggregation_calls w ++ [(c1, c2, resolve_run_id E rid)])).
Proof.
  intros Hrun.
  destruct (run_returns _ _ _ _ _ _ _ _ _ Hrun) as (o1 & Hs & -> & ->).
  pose proof (run_world_worker_invariant E w inputs_ dir rid flag evs) as Hw.
  destruct (run_world_loop_invariant E w inputs_ dir rid flag evs)
    as (_ & _ & _ & Hret).
  unfold worker_invariant, one_aggregation_call in Hw. simpl in Hw |- *.
  split.
  - destruct (exec_pc (run_world E w inputs_ dir rid flag evs))
      as [| |c v| |[[br|]|e]]; try contradiction; tauto.
  - intros br Ho Hst. apply run_handle_ret in Ho. subst o1.
    destruct (Hret _ Hs) as [(br' & Hbr & Hc & _)|(Hpc & _)].
    + injection Hbr as <-. contradiction.
    + rewrite Hpc in Hw. tauto.
Qed.

(** The completed run on the flow with an aggregation node, with the run id
    ["run7"]. *)
Lemma aggregation_called_at_most_once_witness :
  aggregation_calls aggregated_world = aggregation_calls (BatchEngine_init 0)
  \/ exists c1 c2,
      aggregation_calls aggregated_world
      = aggregation_calls (BatchEngine_init 0) ++ [(c1, c2, "run7")].
Proof.
  apply (aggregation_called_at_most_once
           engine_with_aggregation (BatchEngine_init 0) three_inputs
           ["out"] (Some "run7") false aggregated_events
           aggregated_world aggregated_outcome).
  vm_compute. reflexivity.
Defined.

(** ** [_exec_batch]: the semaphore, the tasks and the answers *)

(** X5.  The semaphore of [_exec_batch] never makes the worker wait: in no
    state of a run is the worker suspended at the semaphore, and whenever it
    waits for the tasks the semaphore has given out one unit, the
    worker's. *)
Theorem semaphore_never_blocks E a w evs :
  (forall c, exec_pc (_exec_in_task E a w evs) <> AwaitSemaphore c)
  /\ (forall c v, exec_pc (_exec_in_task E a w evs) = AwaitWait c v ->
                  v = DEFAULT_CONCURRENCY - 1).
Proof.
  pose proof (exec_in_task_worker_invariant E a w evs) as Hw.
  unfold worker_invariant in Hw. split.
  - intros c Hpc. now rewrite Hpc in Hw.
  - intros c v Hpc. rewrite Hpc in Hw. tauto.
Qed.

(** X6.  On an executor that offers only [exec_line_async], started with no
    answer on record: at every moment of a run the lines answered and the
    lines in flight add up to the number of input lines; no line is
    answered twice; and every answer is for one of the input lines. *)
Theorem lines_answered_and_in_flight E w inputs_ dir rid flag evs :
  _executor_proxy E = OtherExecutorProxy -> executor_log w = [] ->
  List.length (executor_log (run_world E w inputs_ dir rid flag evs))
    + in_flight (run_world E w inputs_ dir rid flag evs)
  = List.length inputs_
  /\ NoDup (map fst (executor_log (run_world E w inputs_ dir rid flag evs)))
  /\ forall i o, In (i, o) (executor_log (run_world E w inputs_ dir rid flag evs)) ->
                 i < List.length inputs_.
Proof.
  intros HE Hlog.
  destruct (run_world_tasks_invariant E w inputs_ dir rid flag evs HE Hlog)
    as (_ & Hnd & _ & Hb & Hcount).
  rewrite exec_args_batch_inputs in Hcount, Hb.
  split; [exact Hcount|]. split; [exact Hnd|].
  intros i o Hin. apply (Hb i). now apply (in_map fst) in Hin.
Qed.

(** The three lines, of which one has been answered and collected. *)
Lemma lines_answered_and_in_flight_witness :
  List.length (executor_log
                 (run_world engine_without_aggregation (BatchEngine_init 0)
                            three_inputs ["out"] None false
                            [EvLineDone 2 (Ret (line_result 2 Completed "C"));
                             EvWaitWake]))
    + in_flight (run_world engine_without_aggregation (BatchEngine_init 0)
                           three_inputs ["out"] None false
                           [EvLineDone 2 (Ret (line_result 2 Completed "C"));
                            EvWaitWake])
  = 3.
Proof.
  apply (lines_answered_and_in_flight
           engine_without_aggregation (BatchEngine_init 0) three_inputs
           ["out"] None false
           [EvLineDone 2 (Ret (line_result 2 Completed "C")); EvWaitWake]);
    reflexivity.
Defined.

(** X7.  On a fresh engine with an executor that offers only
    [exec_line_async]: when [exec_line_async] has raised for a line, a run
    that is not canceled raises; what it raises is an exception of the
    executor, passed through the handler of [run]. *)
Theorem executor_exception_fails_the_run
        E now inputs_ dir rid flag evs w' o i e :
  _executor_proxy E = OtherExecutorProxy ->
  run E (BatchEngine_init now) (Ret inputs_) dir rid flag evs = Some (w', o) ->
  In (i, Raise e) (executor_log w') ->
  canceled_result o
  \/ exists j e', In (j, Raise e') (executor_log w')
                  /\ o = run_handle (Raise e').
Proof.
  intros HE Hrun Hin.
  destruct (run_returns _ _ _ _ _ _ _ _ _ Hrun) as (o1 & Hs & -> & ->).
  simpl in Hin |- *.
  destruct (fresh_run_invariants E now inputs_ dir rid flag evs HE)
    as [_ [_ Hsome]].
  destruct (run_world_tasks_invariant E (BatchEngine_init now) inputs_ dir rid
              flag evs HE eq_refl) as (_ & _ & _ & _ & Hcount).
  destruct (Hsome _ Hs) as [(br & -> & Hc & _)|(Hpc & _ & Hl)].
  - left. exists br. now split.
  - destruct Hl as [_ Hl]. rewrite Hpc in Hl.
    destruct Hl as [(j & e' & Hj & ->)|((Hlen & _ & Hperm & _) & _)].
    + right. now exists j, e'.
    + exfalso. apply Permutation_length in Hperm.
      pose proof (proj2 (log_results_shorter _) i e Hin). lia.
Qed.

(** The run in which the executor raises for line 1. *)
Lemma executor_exception_fails_the_run_witness :
  canceled_result raising_outcome
  \/ exists j e', In (j, Raise e') (executor_log raising_world)
                  /\ raising_outcome = run_handle (Raise e').
Proof.
  apply (executor_exception_fails_the_run
           engine_without_aggregation 0 three_inputs ["out"] None false
           raising_events raising_world raising_outcome 1 key_error).
  - reflexivity.
  - vm_compute. reflexivity.
  - vm_compute. tauto.
Defined.

(** X8.  On a fresh engine with an executor that offers only
    [exec_line_async] and answers each line with a line result that carries
    the index of the line: in a summary that is not canceled the line
    result at position [i] is the answer for line [i], whatever the order in
    which the lines ended. *)
Theorem line_results_by_line_index E now inputs_ dir rid flag evs w' br :
  _executor_proxy E = OtherExecutorProxy ->
  run E (BatchEngine_init now) (Ret inputs_) dir rid flag evs
  = Some (w', Ret (Some br)) ->
  br_status br <> Canceled ->
  (forall i r, In (i, Ret r) (executor_log w') -> line_index r = i) ->
  map line_index (line_results br) = seq 0 (List.length inputs_)
  /\ aligned (line_results br)
  /\ forall i r, In (i, Ret r) (executor_log w') ->
                 nth_error (line_results br) i = Some r.
Proof.
  intros HE Hrun Hst Hidx.
  destruct (world_of_run _ _ _ _ _ _ _ _ _ Hrun) as [Hs ->].
  simpl in Hidx |- *.
  destruct (fresh_run_invariants E now inputs_ dir rid flag evs HE)
    as [Hloop Hsched].
  destruct (summary_of_completed_run _ _ _ _ Hloop Hsched Hs Hst)
    as ((Hlen & Hsorted & Hperm & Hpend) & Hlr & _).
  destruct (run_world_tasks_invariant E (BatchEngine_init now) inputs_ dir rid
              flag evs HE eq_refl) as (_ & Hnd & _ & Hb & Hcount).
  rewrite exec_args_batch_inputs in Hlen, Hb, Hcount.
  unfold in_flight in Hcount. rewrite Hpend in Hcount. simpl in Hcount.
  rewrite Nat.add_0_r in Hcount.
  rewrite <- Hlr in Hlen, Hsorted, Hperm.
  set (log := executor_log (run_world E (BatchEngine_init now) inputs_ dir rid
                                      flag evs)) in *.
  assert (Hnoraise : forall i e, ~ In (i, Raise e) log).
  { intros i e Hin. pose proof (proj2 (log_results_shorter log) i e Hin).
    apply Permutation_length in Hperm. lia. }
  assert (Hids : Permutation (map line_index (line_results br))
                             (seq 0 (List.length inputs_))).
  { eapply perm_trans; [apply Permutation_map, Hperm|].
    rewrite (log_results_indices log Hnoraise Hidx).
    apply NoDup_Permutation_bis; [exact Hnd| |].
    - rewrite length_seq, length_map. lia.
    - intros i Hi. apply in_seq. specialize (Hb i Hi). lia. }
  assert (Hmap : map line_index (line_results br)
                 = seq 0 (List.length inputs_)).
  { apply (sorted_unique (fun x : nat => x)).
    - now apply Sorted_line_index.
    - apply Sorted_seq.
    - rewrite map_id. eapply Permutation_NoDup;
        [apply Permutation_sym, Hids | apply seq_NoDup].
    - exact Hids. }
  assert (Hal : aligned (line_results br)).
  { intros j r Hj.
    pose proof (map_nth_error line_index _ _ Hj) as Hm.
    rewrite Hmap, nth_error_seq in Hm.
    destruct (Nat.ltb j (List.length inputs_)); [|discriminate].
    simpl in Hm. congruence. }
  split; [exact Hmap|]. split; [exact Hal|].
  intros i r Hin.
  assert (Hr : In r (line_results br)).
  { apply (Permutation_in _ (Permutation_sym Hperm)).
    apply log_results_In. now exists i. }
  apply In_nth_error in Hr. destruct Hr as [j Hj].
  rewrite <- (Hidx i r Hin). now rewrite (Hal j r Hj).
Qed.

(** The three lines that end in the order 2, 0, 1. *)
Lemma line_results_by_line_index_witness :
  map line_index (line_results out_of_order_summary) = seq 0 3.
Proof.
  apply (line_results_by_line_index
           engine_without_aggregation 0 three_inputs ["out"] None false
           out_of_order_events out_of_order_world out_of_order_summary).
  - reflexivity.
  - vm_compute. reflexivity.
  - vm_compute. discriminate.
  - intros i r Hin. vm_compute in Hin.
    destruct Hin as [Hin|[Hin|[Hin|[]]]]; injection Hin as <- <-; reflexivity.
Defined.

(** ** The engine's line results across runs, and [cancel()] *)

(** X9.  The line scheduler never resets [self._line_results]: on an
    executor that offers only [exec_line_async], every line result the
    engine holds when [run] is entered is in the summary the run
    returns. *)
Theorem earlier_line_results_are_kept E w inputs_ dir rid flag evs w' br :
  _executor_proxy E = OtherExecutorProxy ->
  run E w (Ret inputs_) dir rid flag evs = Some (w', Ret (Some br)) ->
  incl (_line_results w) (line_results br).
Proof.
  intros HE Hrun.
  destruct (world_of_run _ _ _ _ _ _ _ _ _ Hrun) as [Hs _].
  destruct (run_world_returns _ _ _ _ _ _ _ _ Hs)
    as (evs1 & evs2 & _ & _ & Hcases).
  assert (Hincl : incl (_line_results w)
                       (_line_results (run_world E w inputs_ dir rid flag evs1))).
  { unfold run_world, _exec_in_task.
    eapply incl_tran; [|apply steps_line_results_incl].
    now apply (exec_line_results_incl E _ (started w)). }
  destruct Hcases as [(_ & Hbr)|(_ & Hpc)].
  - injection Hbr as ->. exact Hincl.
  - destruct (run_world_loop_invariant E w inputs_ dir rid flag evs1)
      as (_ & _ & Hwf & _).
    destruct (Hwf br Hpc) as (_ & -> & _). exact Hincl.
Qed.

(** A second run on the engine of the run that was canceled after line 2:
    its summary still holds the result of line 2 of the first run. *)
Lemma earlier_line_results_are_kept_witness :
  incl [line_result 2 Completed "C"] (line_results second_summary).
Proof.
  apply (earlier_line_results_are_kept
           engine_with_aggregation canceled_world three_inputs ["out"] None
           false second_run_events second_world second_summary).
  - reflexivity.
  - vm_compute. reflexivity.
Defined.

(** X10.  [run] never resets the flag set by [cancel()]: on an engine whose
    [cancel()] has been called before [run] is entered, whatever [run]
    returns is a summary with status [Canceled], and the flag is still set
    afterwards. *)
Theorem canceled_engine_stays_canceled E w inputs_ dir rid flag evs w' o :
  _is_canceled w = true ->
  run E w (Ret inputs_) dir rid flag evs = Some (w', o) ->
  canceled_result o /\ _is_canceled w' = true.
Proof.
  intros Hc Hrun.
  destruct (run_returns _ _ _ _ _ _ _ _ _ Hrun) as (o1 & Hs & -> & ->).
  split.
  - destruct (run_world_returns _ _ _ _ _ _ _ _ Hs)
      as (evs1 & evs2 & _ & _ & [(_ & ->)|(Hc1 & _)]).
    + eexists. split; reflexivity.
    + rewrite (run_world_is_canceled E w inputs_ dir rid flag evs1 Hc) in Hc1.
      discriminate.
  - simpl. now apply run_world_is_canceled.
Qed.

(** All three lines end and are collected before the supervisor's first
    poll; [cancel()] was called before the run. *)
Lemma canceled_engine_stays_canceled_witness :
  canceled_result canceled_before_outcome
  /\ _is_canceled canceled_before_world = true.
Proof.
  apply (canceled_engine_stays_canceled
           engine_without_aggregation (cancel (BatchEngine_init 0))
           three_inputs ["out"] None false out_of_order_events).
  - reflexivity.
  - vm_compute. reflexivity.
Defined.

(** ** [_exec] on [PythonExecutorProxy] *)

(** X11.  With a [PythonExecutorProxy] the engine makes no line task and
    takes the line results from the proxy's [_exec_batch]: when that
    returns a list, every summary of the run has this list as its line
    results, as it is (not sorted, whatever its length), no line is in
    flight and [exec_line_async] has not been called; when it raises, a run
    that is not canceled raises that exception, passed through the handler
    of [run]. *)
Theorem python_proxy_results_as_returned
        E w inputs_ dir rid flag evs w' o f :
  _executor_proxy E = PythonExecutorProxy f ->
  run E w (Ret inputs_) dir rid flag evs = Some (w', o) ->
  (forall lrs,
      f (batch_inputs (exec_args E inputs_ rid dir flag))
        (output_dir (exec_args E inputs_ rid dir flag))
        (run_id (exec_args E inputs_ rid dir flag)) = Ret lrs ->
      (forall br, o = Ret (Some br) -> line_results br = lrs)
      /\ in_flight w' = 0
      /\ executor_log w' = executor_log w)
  /\ (forall e,
         f (batch_inputs (exec_args E inputs_ rid dir flag))
           (output_dir (exec_args E inputs_ rid dir flag))
           (run_id (exec_args E inputs_ rid dir flag)) = Raise e ->
         canceled_result o \/ o = run_handle (Raise e)).
Proof.
  intros HE Hrun.
  destruct (run_returns _ _ _ _ _ _ _ _ _ Hrun) as (o1 & Hs & -> & ->).
  destruct (run_world_returns _ _ _ _ _ _ _ _ Hs)
    as (evs1 & evs2 & _ & _ & Hcases).
  split.
  - intros lrs Hf.
    assert (Hd : forall evs0, delegated lrs (executor_log w)
                                (run_world E w inputs_ dir rid flag evs0)).
    { intros evs0. unfold run_world, _exec_in_task. apply delegated_steps.
      apply (delegated_start E _ (started w) f lrs HE Hf). }
    destruct (Hd evs) as (Hp & Hl & _ & _).
    destruct (Hd evs1) as (_ & _ & Hlr1 & _).
    split; [|split].
    + intros br Ho. apply run_handle_ret in Ho. subst o1.
      destruct Hcases as [(_ & Hbr)|(_ & Hpc)].
      * injection Hbr as ->. exact Hlr1.
      * destruct (run_world_loop_invariant E w inputs_ dir rid flag evs1)
          as (_ & _ & Hwf & _).
        destruct (Hwf br Hpc) as (_ & -> & _). exact Hlr1.
    + change (List.length
                (filter is_running
                        (pending (run_world E w inputs_ dir rid flag evs))) = 0).
      now rewrite Hp.
    + exact Hl.
  - intros e Hf.
    destruct Hcases as [(_ & ->)|(_ & Hpc)].
    + left. eexists. split; reflexivity.
    + right. f_equal.
      assert (Hpc' : exec_pc (run_world E w inputs_ dir rid flag evs1)
                     = Done (Raise e)).
      { unfold run_world, _exec_in_task. apply steps_done_absorbing.
        unfold _exec. rewrite HE.
        unfold exec_args in Hf |- *. simpl in Hf |- *. now rewrite Hf. }
      congruence.
Qed.

(** A proxy whose [_exec_batch] returns the result of line 1 before that
    of line 0, for three input lines. *)
Lemma python_proxy_results_as_returned_witness :
  line_results python_summary = python_results
  /\ in_flight python_world = 0.
Proof.
  destruct (python_proxy_results_as_returned
              python_engine (BatchEngine_init 0) three_inputs ["out"] None false
              [EvClock 2; EvSleepDone] python_world (Ret (Some python_summary))
              (fun _ _ _ => Ret python_results))
    as [Hret _].
  - reflexivity.
  - vm_compute. reflexivity.
  - destruct (Hret python_results eq_refl) as (Hbr & Hfl & _).
    split; [now apply Hbr | exact Hfl].
Defined.

(** ** [_exec_batch]: the order of the line results *)

(** X12.  [sorted(self._line_results, key=lambda r: r.run_info.index)] of
    line results with pairwise different indices does not depend on the
    order in which the results were collected: two lists with the same
    results are sorted into the same list, and that list is the only
    arrangement of the results in ascending order of index. *)
Theorem sorted_by_index_of_distinct_lines (l l' : list LineResult) :
  NoDup (map line_index l) -> Permutation l l' ->
  sorted_by_index l = sorted_by_index l'
  /\ (Sorted index_le l' -> sorted_by_index l = l').
Proof.
  intros Hnd Hp. split.
  - apply sorted_by_index_unique; [exact Hnd | | apply sorted_by_index_sorted].
    eapply perm_trans; [exact Hp|].
    apply Permutation_sym, sorted_by_index_perm.
  - now apply sorted_by_index_unique.
Qed.

(** Lines 2, 0, 1 and lines 0, 2, 1. *)
Lemma sorted_by_index_of_distinct_lines_witness :
  sorted_by_index [line_result 2 Completed "C"; line_result 0 Failed "";
                   line_result 1 Completed "B"]
  = sorted_by_index [line_result 0 Failed ""; line_result 2 Completed "C";
                     line_result 1 Completed "B"].
Proof.
  apply (sorted_by_index_of_distinct_lines
           [line_result 2 Completed "C"; line_result 0 Failed "";
            line_result 1 Completed "B"]
           [line_result 0 Failed ""; line_result 2 Completed "C";
            line_result 1 Completed "B"]).
  - simpl. repeat constructor; simpl; intuition discriminate.
  - apply perm_swap.
Defined.

(** ** [_exec_aggregation] *)



(** X14.  Whenever [_exec_aggregation] gets to call the executor, the
    columns it hands over are rectangular: one column per flow input and
    one per aggregation input property, in the order of these keys, and
    every column has one cell for each line result with status
    [Completed], whatever the inputs and the line results are. *)
Theorem aggregation_columns_are_rectangular
        (E : Engine) (inputs_ : list Dict) (lrs : list LineResult)
        (c1 c2 : Columns) :
  _exec_aggregation_begin E inputs_ lrs = Ret (CallsExecutor c1 c2) ->
  map fst c1 = inputs (_flow E)
  /\ map fst c2 = get_aggregation_inputs_properties (collab E) (_flow E)
  /\ forall k col, In (k, col) (c1 ++ c2) ->
       List.length col = List.length (filter is_completed lrs).
Proof.
  unfold _exec_aggregation_begin.
  destruct (aggregation_nodes (_flow E)); [discriminate|].
  destruct (map_outcome (list_index inputs_) (succeeded_of (map run_info lrs)))
    as [xs|e] eqn:Hxs; simpl; [|discriminate].
  destruct (map_outcome (ensure_flow_inputs_type (collab E) (_flow E)) xs)
    as [ys|e] eqn:Hys; simpl; [|discriminate].
  destruct (collect_lines _ _) as [c|e] eqn:Hc; simpl; [|discriminate].
  intros H. injection H as <- <-.
  apply map_outcome_length in Hxs, Hys.
  destruct (collect_lines_shape _ _ _ Hc) as [Hkeys Hcols].
  rewrite transpose_keys in Hkeys.
  split; [apply transpose_keys|]. split; [exact Hkeys|].
  intros k col Hin. apply in_app_or in Hin. destruct Hin as [Hin|Hin].
  - apply transpose_column_length in Hin.
    now rewrite Hin, Hys, Hxs, succeeded_of_length.
  - rewrite (Hcols k col Hin). apply succeeded_of_length.
Qed.

(** Fewer line results than lines, as after a cancellation: the column
    of the aggregation input has one cell, for the one completed line
    result. *)
Lemma aggregation_columns_are_rectangular_witness :
  List.length [Some (VInt 2)]
  = List.length (filter is_completed [line_result 2 Completed "C"]).
Proof.
  destruct (aggregation_columns_are_rectangular engine_with_aggregation
              three_inputs [line_result 2 Completed "C"]
              [("q", [Some (VStr "a")])] [("acc", [Some (VInt 2)])])
    as (_ & _ & Hcols).
  - reflexivity.
  - apply (Hcols "acc"). simpl. tauto.
Defined.

(** X15.  [_exec_aggregation] reads the inputs only at the positions of the
    line results with status [Completed]: two lists of inputs that agree at
    these positions give the same call of the executor, or the same
    error. *)
Theorem aggregation_reads_completed_positions_only
        (E : Engine) (inputs1 inputs2 : list Dict) (lrs : list LineResult) :
  (forall j r, nth_error lrs j = Some r -> is_completed r = true ->
               nth_error inputs1 j = nth_error inputs2 j) ->
  _exec_aggregation_begin E inputs1 lrs = _exec_aggregation_begin E inputs2 lrs.
Proof.
  intros Hagree. unfold _exec_aggregation_begin.
  destruct (aggregation_nodes (_flow E)); [reflexivity|].
  rewrite (map_outcome_ext_in (list_index inputs1) (list_index inputs2));
    [reflexivity|].
  intros i Hi. apply succeeded_of_In in Hi. destruct Hi as (r & Hr & Hc).
  unfold list_index. now rewrite (Hagree i r Hr Hc).
Qed.

(** The input of the failed line 0 does not matter, nor does a missing
    input after the last line result. *)
Lemma aggregation_reads_completed_positions_only_witness :
  _exec_aggregation_begin engine_with_aggregation
    [line_input "a"; line_input "b"]
    [line_result 0 Failed ""; line_result 1 Completed "B"]
  = _exec_aggregation_begin engine_with_aggregation
      [line_input "z"; line_input "b"; line_input "c"]
      [line_result 0 Failed ""; line_result 1 Completed "B"].
Proof.
  apply (aggregation_reads_completed_positions_only engine_with_aggregation).
  intros j r Hj Hc.
  destruct j as [|[|j]]; simpl in Hj; try (destruct j; discriminate);
    injection Hj as <-; [discriminate | reflexivity].
Defined.

(** X16.  In a flow with aggregation nodes, a line result with status
    [Completed] at a position where the inputs have no entry makes
    [_exec_aggregation] raise [IndexError] before the executor is called;
    without aggregation nodes nothing is raised. *)
Theorem aggregation_index_error
        (E : Engine) (inputs_ : list Dict) (lrs : list LineResult)
        (j : nat) (r : LineResult) :
  nth_error lrs j = Some r -> is_completed r = true ->
  List.length inputs_ <= j ->
  _exec_aggregation_begin E inputs_ lrs
  = match aggregation_nodes (_flow E) with
    | [] => Ret (ReturnsAtOnce (mkAggregationResult [] [] []))
    | _ :: _ => Raise (Exc false "IndexError" "list index out of range")
    end.
Proof.
  intros Hr Hc Hlen. unfold _exec_aggregation_begin.
  destruct (aggregation_nodes (_flow E)); [reflexivity|].
  rewrite (map_outcome_raises (list_index inputs_) _
             (Exc false "IndexError" "list index out of range") j).
  - reflexivity.
  - intros y e' Hy. now apply list_index_raises in Hy.
  - apply succeeded_of_In. now exists r.
  - now apply list_index_out_of_range.
Qed.

(** Three line results for two inputs. *)
Lemma aggregation_index_error_witness :
  _exec_aggregation_begin engine_with_aggregation
    [line_input "a"; line_input "b"]
    [line_result 0 Completed "A"; line_result 1 Completed "B";
     line_result 2 Completed "C"]
  = Raise (Exc false "IndexError" "list index out of range").
Proof.
  apply (aggregation_index_error engine_with_aggregation
           [line_input "a"; line_input "b"]
           [line_result 0 Completed "A"; line_result 1 Completed "B";
            line_result 2 Completed "C"]
           2 (line_result 2 Completed "C")).
  - reflexivity.
  - reflexivity.
  - simpl. lia.
Defined.

(** ** The records of the output file *)

(** X17.  The record made for a line, [{LINE_NUMBER_KEY: index, **output}],
    has the line number key first and then the fields of the output in
    their order, without a second entry for a field of the output that is
    named like the line number key. *)
Theorem output_record_keys (E : Engine) (r : LineResult) :
  NoDup (map fst (output r)) ->
  map fst (output_record E r)
  = LINE_NUMBER_KEY (collab E)
      :: filter (fun k => negb (String.eqb k (LINE_NUMBER_KEY (collab E))))
                (map fst (output r)).
Proof.
  intros Hnd. unfold output_record. rewrite dict_update_keys by assumption.
  simpl. f_equal. apply filter_ext. intros k. unfold mem_string. simpl.
  now rewrite Bool.orb_false_r.
Qed.

(** An output with a field named like the line number key. *)
Lemma output_record_keys_witness :
  map fst (output_record engine_without_aggregation
             (mkLineResult [("out", VStr "A"); ("line_number", VInt 7)] []
                           (mkRunInfo 0 Completed "")))
  = ["line_number"; "out"].
Proof.
  apply (output_record_keys engine_without_aggregation
           (mkLineResult [("out", VStr "A"); ("line_number", VInt 7)] []
                         (mkRunInfo 0 Completed ""))).
  simpl. repeat constructor; simpl; intuition discriminate.
Defined.

(** ** [register_executor] and [__init__] *)

(** X18.  After [register_executor(type, cls)], [__init__] of a flow whose
    program language is [type] makes its executor proxy with [cls.create],
    also when the language had a class before; for a flow of another
    language [__init__] does what it did before the registration. *)
Theorem registered_class_is_used
        {C : Type} (I : InitCollaborators C) (K : Collaborators)
        (classes : ProxyClasses C) (type : string) (cls : C)
        (flow_file : Path) (working_dir : option Path)
        (connections : option Dict) (storage : option string) (kwargs : Dict)
        (now : nat) (working_dir_ : Path) (flow : Flow) :
  _resolve_working_dir I flow_file working_dir = Ret working_dir_ ->
  from_yaml I flow_file working_dir_ = Ret flow ->
  ensure_flow_valid_in_batch_mode I flow = Ret tt ->
  (program_language I flow = type ->
   __init__ I K (register_executor type cls classes) flow_file working_dir
            connections storage kwargs now
   = (proxy <- create I cls flow_file working_dir_ connections storage kwargs ;;
      Ret (mkEngine K working_dir_ flow proxy, BatchEngine_init now)))
  /\ (program_language I flow <> type ->
      __init__ I K (register_executor type cls classes) flow_file working_dir
               connections storage kwargs now
      = __init__ I K classes flow_file working_dir
                 connections storage kwargs now).
Proof.
  intros Hwd Hflow Hvalid. unfold __init__.
  rewrite Hwd. simpl. rewrite Hflow. simpl. rewrite Hvalid. simpl.
  rewrite executor_proxy_class_registered. split.
  - intros ->. now rewrite String.eqb_refl.
  - intros Hne. now destruct (String.eqb_spec (program_language I flow) type).
Qed.

(** A class registered for TypeScript flows. *)
Lemma registered_class_is_used_witness :
  __init__ sample_init sample_collab
           (register_executor "typescript" "TypeScriptExecutorProxy" sample_classes)
           ["flows"; "flow.dag.yaml"] None None None [] 0
  = Ret (mkEngine sample_collab ["flows"] flow_without_aggregation
                  OtherExecutorProxy,
         BatchEngine_init 0).
Proof.
  apply (proj1 (registered_class_is_used sample_init sample_collab
                  sample_classes "typescript" "TypeScriptExecutorProxy"
                  ["flows"; "flow.dag.yaml"] None None None [] 0
                  ["flows"] flow_without_aggregation
                  eq_refl eq_refl eq_refl)).
  reflexivity.
Defined.

(** X19.  [__init__] of a flow whose program language has no class in the
    registry raises [KeyError] for the language, once the flow has been
    loaded and found valid; no executor proxy is made. *)
Theorem init_of_unregistered_language
        {C : Type} (I : InitCollaborators C) (K : Collaborators)
        (classes : ProxyClasses C)
        (flow_file : Path) (working_dir : option Path)
        (connections : option Dict) (storage : option string) (kwargs : Dict)
        (now : nat) (working_dir_ : Path) (flow : Flow) :
  _resolve_working_dir I flow_file working_dir = Ret working_dir_ ->
  from_yaml I flow_file working_dir_ = Ret flow ->
  ensure_flow_valid_in_batch_mode I flow = Ret tt ->
  ~ In (program_language I flow) (map fst classes) ->
  __init__ I K classes flow_file working_dir connections storage kwargs now
  = Raise (Exc false "KeyError" (program_language I flow)).
Proof.
  intros Hwd Hflow Hvalid Hmissing. unfold __init__.
  rewrite Hwd. simpl. rewrite Hflow. simpl. rewrite Hvalid. simpl.
  now rewrite executor_proxy_class_missing.
Qed.

(** A TypeScript flow and the two classes the engine starts with. *)
Lemma init_of_unregistered_language_witness :
  __init__ sample_init sample_collab sample_classes
           ["flows"; "flow.dag.yaml"] None None None [] 0
  = Raise (Exc false "KeyError" "typescript").
Proof.
  apply (init_of_unregistered_language sample_init sample_collab
           sample_classes ["flows"; "flow.dag.yaml"] None None None [] 0
           ["flows"] flow_without_aggregation eq_refl eq_refl eq_refl).
  simpl. intuition discriminate.
Defined.

(** ** [AttrDict] *)

(** X20.  [d.k] of an [AttrDict] raises nothing but [AttributeError], so
    [hasattr(d, k)] never raises; it holds exactly when [k] is a key of the
    dict or a name the ordinary lookup finds. *)
Theorem hasattr_never_raises (C : PyClass) (d : AttrDict) (k : string) :
  hasattr C d k
  = Ret (dict_contains k (entries d)
         || mem_string k (data_descriptors C)
         || dict_contains k (instance_dict d)
         || mem_string k (class_attributes C))%bool.
Proof.
  unfold hasattr, getattr, __getattr__, __getattribute__, __getitem__,
    dict_contains.
  destruct (mem_string k (data_descriptors C));
    destruct (dict_get k (instance_dict d));
    destruct (mem_string k (class_attributes C));
    destruct (dict_get k (entries d)); reflexivity.
Qed.

(** X21.  After [d[k] = v], the item is [v]; the attribute [d.k] is [v]
    when the ordinary lookup does not find [k], and is what the ordinary
    lookup finds otherwise; the attributes of the other names are as
    before. *)
Theorem item_assignment_and_attribute
        (C : PyClass) (d : AttrDict) (k : string) (v : PyVal) :
  __getitem__ (__setitem__ d k v) k = Ret (Value v)
  /\ (forall e, __getattribute__ C d k = Raise e ->
                getattr C (__setitem__ d k v) k = Ret (Value v))
  /\ (forall x, __getattribute__ C d k = Ret x ->
                getattr C (__setitem__ d k v) k = Ret x)
  /\ (forall k', k' <> k ->
                 getattr C (__setitem__ d k v) k' = getattr C d k').
Proof.
  unfold getattr, __getattr__, __getitem__, dict_contains, __setitem__.
  change (__getattribute__ C (mkAttrDict (dict_set k v (entries d))
                                         (instance_dict d)))
    with (__getattribute__ C d).
  simpl. split; [|split; [|split]].
  - now rewrite dict_get_set, String.eqb_refl.
  - intros e He. rewrite He, !dict_get_set, !String.eqb_refl. reflexivity.
  - intros x Hx. now rewrite Hx.
  - intros k' Hne. rewrite !dict_get_set.
    now destruct (String.eqb_spec k' k).
Qed.

(** X22.  An [AttrDict] made from pairs and keyword arguments: [d.k] is a
    name of the class when the class has [k]; otherwise it is the keyword
    argument [k], or else the value paired with [k]; and it raises
    [AttributeError] when there is neither. *)
Theorem attribute_of_new_attrdict
        (C : PyClass) (pairs kwargs : Dict) (k : string) :
  NoDup (map fst pairs) -> NoDup (map fst kwargs) ->
  getattr C (AttrDict_init pairs kwargs) k
  = if (mem_string k (data_descriptors C)
        || mem_string k (class_attributes C))%bool
    then Ret (ClassAttribute k)
    else match dict_get k kwargs with
         | Some v => Ret (Value v)
         | None =>
             match dict_get k pairs with
             | Some v => Ret (Value v)
             | None => Raise (AttributeError k)
             end
         end.
Proof.
  intros Hp Hk.
  unfold getattr, __getattr__, __getattribute__, __getitem__, dict_contains,
    AttrDict_init.
  simpl. rewrite !dict_get_update by assumption. simpl.
  destruct (mem_string k (data_descriptors C));
    destruct (mem_string k (class_attributes C));
    destruct (dict_get k kwargs); destruct (dict_get k pairs); reflexivity.
Qed.

(** A response with a pair and a keyword argument of the same name, and a
    pair named like a method of [dict]. *)
Lemma attribute_of_new_attrdict_witness :
  getattr dict_class
          (AttrDict_init [("model", VStr "m1"); ("keys", VInt 3)]
                         [("model", VStr "m2")]) "model"
  = Ret (Value (VStr "m2")).
Proof.
  apply (attribute_of_new_attrdict dict_class
           [("model", VStr "m1"); ("keys", VInt 3)] [("model", VStr "m2")]
           "model").
  - simpl. repeat constructor; simpl; intuition discriminate.
  - simpl. repeat constructor; simpl; intuition discriminate.
Defined.
